(** * CodeUniterAI: the project collector ([uniter.py])

    A shallow embedding of [ProjectCollector] and the properties of its
    analysis, enumeration, report and consolidation steps.

    Python values are embedded as follows.
    - A [str] is the list of its Unicode code points, so that slicing
      ([s[:100]]), [len] and the ordering used by [sorted] count code
      points as Python does.
    - A [set] of strings is a [gset]; the order in which Python iterates
      over it is a parameter of the run ([set_iter]).
    - A dictionary with a fixed set of keys is a record; the two shapes of
      the dictionary returned by [analyze_python_file] are the two
      constructors of [Analysis].
    - An exception that the code lets escape is the [Err] branch of
      [result]; a [try]/[except Exception] is a match on it. *)

From Stdlib Require Import Ascii String DecimalString.
From stdpp Require Import base decidable option list sorting gmap sets.
From Equations Require Import Equations.

Set Default Proof Using "Type".
Set Warnings "-register-all".
Local Open Scope N_scope.

(** ** Python strings *)

Module Str.

(** A string is a sequence of code points. *)
Abbreviation str := (list N).

(** [utf8 s] reads the literal [s], written in UTF-8 in this file, as a
    Python string. [need] continuation bytes are still expected for the
    code point accumulated in [acc]. *)
Fixpoint utf8_from (need : nat) (acc : N) (s : string) : str :=
  match s with
  | EmptyString => []
  | String a rest =>
      let b := N_of_ascii a in
      match need with
      | O =>
          if b <? 128 then b :: utf8_from 0 0 rest
          else if b <? 224 then utf8_from 1 (b - 192) rest
          else if b <? 240 then utf8_from 2 (b - 224) rest
          else utf8_from 3 (b - 240) rest
      | S O => (acc * 64 + (b - 128)) :: utf8_from 0 0 rest
      | S k => utf8_from k (acc * 64 + (b - 128)) rest
      end
  end.

Definition utf8 (s : string) : str := utf8_from 0 0 s.
#[global] Arguments utf8 : simpl never.

(** [sep.join(parts)] *)
Fixpoint join (sep : str) (parts : list str) : str :=
  match parts with
  | [] => []
  | [p] => p
  | p :: rest => p ++ sep ++ join sep rest
  end.

(** [str(n)] for a non-negative [int]. *)
Definition of_N (n : N) : str :=
  utf8 (NilZero.string_of_uint (N.to_uint n)).

Definition of_nat (n : nat) : str := of_N (N.of_nat n).

(** [c * n] *)
Definition repeat_char (c : N) (n : nat) : str := replicate n c.

(** [s < t]: lexicographic on code points. *)
Fixpoint ltb (s t : str) : bool :=
  match s, t with
  | _, [] => false
  | [], _ :: _ => true
  | a :: s', b :: t' =>
      if a <? b then true else if b <? a then false else ltb s' t'
  end.

(** [s.endswith(suffix)] *)
Definition endswith (s suffix : str) : bool :=
  bool_decide (drop (length s - length suffix)%nat s = suffix).

(** [s.replace(c, '')] for a one-character [c]. *)
Definition remove_char (c : N) (s : str) : str :=
  filter (λ x, x ≠ c) s.

(** [sub in s] *)
Fixpoint contains (s sub : str) : bool :=
  bool_decide (take (length sub) s = sub)
  || match s with [] => false | _ :: s' => contains s' sub end.

(** [s.split(sep)] for a one-character [sep]; [cur] is the field being
    read, in reverse. *)
Fixpoint split_from (sep : N) (cur : str) (s : str) : list str :=
  match s with
  | [] => [reverse cur]
  | c :: rest =>
      if decide (c = sep) then reverse cur :: split_from sep [] rest
      else split_from sep (c :: cur) rest
  end.

Definition split (sep : N) (s : str) : list str := split_from sep [] s.

(** [s.rfind(c)]: the index of the last [c] in [s], if any. *)
Fixpoint rfind (c : N) (s : str) : option nat :=
  match s with
  | [] => None
  | x :: rest =>
      match rfind c rest with
      | Some i => Some (S i)
      | None => if decide (x = c) then Some O else None
      end
  end.

(** The line boundaries of [str.splitlines]: LF, VT, FF, CR, FS, GS, RS,
    NEL, LS and PS. *)
Definition is_linebreak (c : N) : bool :=
  bool_decide (c ∈ [10; 11; 12; 13; 28; 29; 30; 133; 8232; 8233]).

(** [s.splitlines()]: split at line boundaries, CR LF counting as one;
    no empty last line is produced after a final boundary. [cur] is the
    line being read, in reverse. *)
Fixpoint splitlines_from (cur : str) (s : str) : list str :=
  match s with
  | [] => match cur with [] => [] | _ => [reverse cur] end
  | c :: rest =>
      if is_linebreak c then
        reverse cur ::
          match rest with
          | c' :: rest' =>
              if bool_decide (c = 13 ∧ c' = 10) then splitlines_from [] rest'
              else splitlines_from [] rest
          | [] => []
          end
      else splitlines_from (c :: cur) rest
  end.

Definition splitlines (s : str) : list str := splitlines_from [] s.

End Str.
Import Str.

(** ** Results and exceptions *)

(** The outcome of an operation that may raise: the value, or the message
    [str(e)] of the exception. *)
Inductive result (A : Type) : Type :=
| Ok (a : A)
| Err (msg : str).
Arguments Ok {A} a.
Arguments Err {A} msg.

#[global] Instance result_ret : MRet result := @Ok.

#[global] Instance result_bind : MBind result := λ A B k r,
  match r with
  | Ok a => k a
  | Err msg => Err msg
  end.

(** [for x in l: acc = step(acc, x)], stopping at the first exception. *)
Fixpoint for_each {A S} (step : S → A → result S) (l : list A) (acc : S)
  : result S :=
  match l with
  | [] => Ok acc
  | x :: l' => acc' ← step acc x; for_each step l' acc'
  end.

(** ** Syntax trees of the [ast] module *)

Module Ast.

Record alias := { alias_name : str; alias_asname : option str }.

Record arg := { arg_arg : str }.

Record arguments := {
  posonlyargs : list arg;
  args : list arg;
  vararg : option arg;
  kwonlyargs : list arg;
  kwarg : option arg
}.

(** The value of a [Constant]: a string, or anything else. *)
Inductive constant :=
| CStr (s : str)
| COther.

(** The node classes the collector tells apart. [Other] is a node of any
    other class (an expression, an [alias], an [arguments], an [If], an
    [AsyncFunctionDef], ...) with its child nodes in field order. In a
    [FunctionDef], [args_nodes] are the child nodes of its [arguments]
    node (the [arg] nodes and the default values). *)
Inductive node :=
| Module (body : list node)
| Import (names : list alias)
| ImportFrom (module : option str) (names : list alias) (level : N)
| FunctionDef (name : str) (args : arguments) (args_nodes : list node)
    (body decorator_list : list node) (returns : option node) (lineno : N)
| ClassDef (name : str) (bases keywords body decorator_list : list node)
    (lineno : N)
| Expr (value : node)
| Constant (value : constant)
| Other (children : list node).

(** [ast.iter_child_nodes]: the child nodes, in the order of the fields
    of the node class. *)
Definition iter_child_nodes (n : node) : list node :=
  match n with
  | Module body => body
  | Import names => (λ _, Other []) <$> names
  | ImportFrom _ names _ => (λ _, Other []) <$> names
  | FunctionDef _ _ args_nodes body decorator_list returns _ =>
      Other args_nodes :: body ++ decorator_list ++ option_list returns
  | ClassDef _ bases keywords body decorator_list _ =>
      bases ++ keywords ++ body ++ decorator_list
  | Expr value => [value]
  | Constant _ => []
  | Other children => children
  end.

(** The number of nodes of a tree. *)
Fixpoint node_count (n : node) : nat :=
  match n with
  | Module body => S (sum_list_with node_count body)
  | Import names => S (length names)
  | ImportFrom _ names _ => S (length names)
  | FunctionDef _ _ args_nodes body decorator_list returns _ =>
      S (S (sum_list_with node_count args_nodes) + sum_list_with node_count body
         + sum_list_with node_count decorator_list
         + match returns with Some r => node_count r | None => 0 end)%nat
  | ClassDef _ bases keywords body decorator_list _ =>
      S (sum_list_with node_count bases + sum_list_with node_count keywords
         + sum_list_with node_count body + sum_list_with node_count decorator_list)%nat
  | Expr value => S (node_count value)
  | Constant _ => 1%nat
  | Other children => S (sum_list_with node_count children)
  end.

Lemma size_children n : (sum_list_with node_count (iter_child_nodes n) < node_count n)%nat.
Proof.
  destruct n as [| names | ? names ? | ? ? ? ? ? [r|] ? | | | |]; simpl;
    rewrite ?sum_list_with_app; simpl; try lia.
  all: induction names; csimpl; lia.
Qed.

(** [ast.walk]: breadth first, from a queue of nodes still to yield.

    [todo = deque([node]); while todo: node = todo.popleft();
     todo.extend(iter_child_nodes(node)); yield node] *)
Equations walk_queue (todo : list node) : list node
  by wf (sum_list_with node_count todo) lt :=
walk_queue [] := [];
walk_queue (n :: todo) := n :: walk_queue (todo ++ iter_child_nodes n).
Next Obligation.
  rewrite sum_list_with_app. pose proof (size_children n). simpl. lia.
Qed.

Definition walk (n : node) : list node := walk_queue [n].

End Ast.
Import Ast.

(** The functions of the Python library that are used as they are: the
    parser, of which [ast_parse content] is the body of the [Module] that
    [ast.parse(content)] returns or the message of the exception it raises,
    and [inspect.cleandoc], which [ast.get_docstring] applies. *)
Class PyLib := {
  ast_parse : str → result (list node);
  cleandoc : str → str
}.

(** ** The file system *)

Module Fs.

(** A snapshot of a directory: its entries in the order in which the
    system lists them. [text] is what [open(path, 'r',
    encoding='utf-8').read()] gives for the file: its decoded text or the
    message of the exception raised. *)
Inductive entry :=
| File (name : str) (st_size : N) (text : result str)
| Dir (name : str) (st_size : N) (entries : list entry).

Definition entry_name (e : entry) : str :=
  match e with File name _ _ | Dir name _ _ => name end.

Definition entry_size (e : entry) : N :=
  match e with File _ st_size _ | Dir _ st_size _ => st_size end.

Definition is_dir (e : entry) : bool :=
  match e with Dir _ _ _ => true | File _ _ _ => false end.

(** The entry called [name] in a directory. *)
Fixpoint find_entry (name : str) (es : list entry) : option entry :=
  match es with
  | [] => None
  | e :: es' => if decide (entry_name e = name) then Some e
                else find_entry name es'
  end.

(** The entry at a path, given by its parts relative to the root. *)
Fixpoint resolve (es : list entry) (parts : list str) : option entry :=
  match parts with
  | [] => None
  | name :: parts' =>
      match find_entry name es, parts' with
      | Some e, [] => Some e
      | Some (Dir _ _ sub), _ => resolve sub parts'
      | _, _ => None
      end
  end.

Definition sep : N := 47.

(** [str(path)] of a relative path. *)
Definition path_str (parts : list str) : str := join [sep] parts.

Definition no_such_file (parts : list str) : str :=
  utf8 "[Errno 2] No such file or directory: '" ++ path_str parts ++ utf8 "'".

Definition is_a_directory (parts : list str) : str :=
  utf8 "[Errno 21] Is a directory: '" ++ path_str parts ++ utf8 "'".

(** [path.stat().st_size] *)
Definition stat_size (es : list entry) (parts : list str) : result N :=
  match resolve es parts with
  | Some e => Ok (entry_size e)
  | None => Err (no_such_file parts)
  end.

(** [open(path, 'r', encoding='utf-8').read()] *)
Definition read_text (es : list entry) (parts : list str) : result str :=
  match resolve es parts with
  | Some (File _ _ text) => text
  | Some (Dir _ _ _) => Err (is_a_directory parts)
  | None => Err (no_such_file parts)
  end.

(** The parts of a relative path written with [/]; empty parts and [.]
    are dropped, as [pathlib] does. *)
Definition path_parts (s : str) : list str :=
  filter (λ part, part ≠ [] ∧ part ≠ [46]) (split sep s).

(** [PurePath.suffix] of a path whose last part is [name]:
    [i = name.rfind('.')], then [name[i:]] if [0 < i < len(name) - 1] and
    the empty string otherwise. *)
Definition suffix (name : str) : str :=
  match rfind 46 name with
  | Some i =>
      if bool_decide (0 < i ∧ i < length name - 1)%nat then drop i name
      else []
  | None => []
  end.

(** One item of [os.walk]: the directory reached, as the parts of its
    path relative to the root, the names of its subdirectories and the
    names of its other entries. *)
Definition walk_item : Type := list str * list str * list str.

Definition dirnames (es : list entry) : list str :=
  entry_name <$> filter (λ e, is_dir e = true) es.

Definition filenames (es : list entry) : list str :=
  entry_name <$> filter (λ e, is_dir e = false) es.

(** [os.walk(top)], top-down, for a consumer that on every item keeps in
    [dirs] exactly the names satisfying [keep]
    ([dirs[:] = [d for d in dirs if keep(d)]]): only these are entered.
    [walk_entry] is the walk below one entry of the directory [top]. *)
Fixpoint walk_entry (keep : str → bool) (top : list str) (e : entry)
  : list walk_item :=
  match e with
  | Dir d _ sub =>
      if keep d then
        (top ++ [d], dirnames sub, filenames sub) ::
        flat_map (walk_entry keep (top ++ [d])) sub
      else []
  | File _ _ _ => []
  end.

Definition os_walk (keep : str → bool) (top : list str) (es : list entry)
  : list walk_item :=
  (top, dirnames es, filenames es) :: flat_map (walk_entry keep top) es.

End Fs.
Import Fs.

(** ** The data model *)

Module FunctionInfo.
Record t := mk {
  name : str;
  args : list str;
  docstring : option str;
  line : N
}.
End FunctionInfo.

Module ClassInfo.
Record t := mk {
  name : str;
  methods : list str;
  docstring : option str;
  line : N
}.
End ClassInfo.

Module Analysis.
Record data := mk {
  imports : list str;
  functions : list FunctionInfo.t;
  classes : list ClassInfo.t;
  docstring : option str;
  lines : nat
}.

(** The dictionary returned by [analyze_python_file]: the five keys
    above, or the single key ['error']. *)
Inductive t :=
| ok (analysis : data)
| error (msg : str).
End Analysis.

Module FileRecord.
Record t := mk {
  path : str;
  size : N;
  extension : str;
  analysis : option Analysis.t
}.
End FileRecord.

(** A function or class dictionary after [d['file'] = file_info['path']]. *)
Record Tagged (A : Type) := tag { item : A; file : str }.
Arguments tag {A} item file.
Arguments item {A} _.
Arguments file {A} _.

(** The nested dictionary built by [generate_tree_structure]: a name maps
    to the marker ['file'] or to the dictionary of a subdirectory; the
    items are kept in insertion order. *)
Inductive tnode :=
| file_marker
| subtree (items : list (str * tnode)).

(** [datetime.now()] *)
Record datetime := {
  year : N; month : N; day : N; hour : N; minute : N; second : N
}.

(** ** Small pieces of Python *)

Definition nl : str := [10].

(** Truth value of an optional string: [None] and [''] are false. *)
Definition truthy (o : option str) : bool :=
  match o with
  | Some (_ :: _) => true
  | _ => false
  end.

(** [x or default] for a set argument. *)
Definition set_or (x : option (gset str)) (default : gset str) : gset str :=
  match x with
  | Some s => if decide (s = ∅) then default else s
  | None => default
  end.

(** [x or default] for a list argument. *)
Definition list_or (x : option (list str)) (default : list str) : list str :=
  match x with
  | Some [] | None => default
  | Some l => l
  end.

(** [sorted(l, key=key)]: stable, comparing keys with [<]. *)
Fixpoint insort {A} (key : A → str) (x : A) (l : list A) : list A :=
  match l with
  | [] => [x]
  | y :: l' => if ltb (key y) (key x) then y :: insort key x l' else x :: l
  end.

Definition sorted {A} (key : A → str) (l : list A) : list A :=
  foldr (insort key) [] l.

(** [d[k] = v] and [d.get(k)] on a dictionary kept as its list of items. *)
Fixpoint dict_set {V} (k : str) (v : V) (d : list (str * V)) : list (str * V) :=
  match d with
  | [] => [(k, v)]
  | (k', v') :: d' =>
      if decide (k' = k) then (k, v) :: d' else (k', v') :: dict_set k v d'
  end.

Fixpoint dict_get {V} (k : str) (d : list (str * V)) : option V :=
  match d with
  | [] => None
  | (k', v') :: d' => if decide (k' = k) then Some v' else dict_get k d'
  end.

(** [for i, x in enumerate(items)] where the body uses [x] and
    [i == len(items) - 1], and appends text. *)
Fixpoint for_items_last {A} (body : bool → A → str) (items : list A) : str :=
  match items with
  | [] => []
  | x :: rest => body (bool_decide (rest = [])) x ++ for_items_last body rest
  end.

(** Two decimal digits, as [%m], [%d], [%H], [%M] and [%S] give. *)
Definition pad2 (n : N) : str :=
  if n <? 10 then 48 :: of_N n else of_N n.

(** [now.strftime('%Y-%m-%d %H:%M:%S')] *)
Definition strftime (now : datetime) : str :=
  of_N (year now) ++ utf8 "-" ++ pad2 (month now) ++ utf8 "-" ++ pad2 (day now)
  ++ utf8 " " ++ pad2 (hour now) ++ utf8 ":" ++ pad2 (minute now)
  ++ utf8 ":" ++ pad2 (second now).

(** ** ProjectCollector *)

Record ProjectCollector := {
  root_dir : list str;
  exclude_dirs : gset str;
  exclude_files : gset str
}.

Definition default_exclude_dirs : gset str :=
  {[ utf8 "__pycache__"; utf8 ".git"; utf8 ".venv"; utf8 "venv";
     utf8 "node_modules"; utf8 ".idea" ]}.

Definition default_exclude_files : gset str :=
  {[ utf8 "*.pyc"; utf8 "*.pyo"; utf8 ".DS_Store" ]}.

Definition default_extensions : list str :=
  [utf8 ".py"; utf8 ".md"; utf8 ".txt"; utf8 ".yml"; utf8 ".yaml"; utf8 ".json"].

(** [__init__(self, root_dir, exclude_dirs=None, exclude_files=None)];
    [root_dir] is given by its parts. *)
Definition init (root_dir : list str) (exclude_dirs exclude_files : option (gset str))
  : ProjectCollector :=
  {| root_dir := root_dir;
     exclude_dirs := set_or exclude_dirs default_exclude_dirs;
     exclude_files := set_or exclude_files default_exclude_files |}.

(** [self.root_dir.name] *)
Definition root_name (self : ProjectCollector) : str :=
  default [] (last (root_dir self)).

Section collector.
Context `{PyLib}.
Variable self : ProjectCollector.

(** *** analyze_python_file *)

(** [ast.get_docstring(node)], called on a [Module], a [FunctionDef] or a
    [ClassDef] only (on another node it raises). *)
Definition get_docstring (node : node) : option str :=
  match node with
  | Module body
  | FunctionDef _ _ _ body _ _ _
  | ClassDef _ _ _ body _ _ =>
      match body with
      | Expr (Constant (CStr text)) :: _ => Some (cleandoc text)
      | _ => None
      end
  | _ => None
  end.

(** [[n.name for n in body if isinstance(n, ast.FunctionDef)]] *)
Definition function_names (body : list node) : list str :=
  omap (λ n, match n with
             | FunctionDef name _ _ _ _ _ _ => Some name
             | _ => None
             end) body.

(** [analysis['imports'].extend(l)], [analysis['functions'].append(f)]
    and [analysis['classes'].append(c)]. *)
Definition extend_imports (l : list str) (a : Analysis.data) : Analysis.data :=
  Analysis.mk (Analysis.imports a ++ l) (Analysis.functions a)
    (Analysis.classes a) (Analysis.docstring a) (Analysis.lines a).

Definition append_function (f : FunctionInfo.t) (a : Analysis.data)
  : Analysis.data :=
  Analysis.mk (Analysis.imports a) (Analysis.functions a ++ [f])
    (Analysis.classes a) (Analysis.docstring a) (Analysis.lines a).

Definition append_class (c : ClassInfo.t) (a : Analysis.data) : Analysis.data :=
  Analysis.mk (Analysis.imports a) (Analysis.functions a)
    (Analysis.classes a ++ [c]) (Analysis.docstring a) (Analysis.lines a).

(** The body of the loop over [ast.walk(tree)]. *)
Definition visit (analysis : Analysis.data) (node : node) : Analysis.data :=
  match node with
  | Import names => extend_imports (alias_name <$> names) analysis
  | ImportFrom module names _ =>
      if truthy module then
        extend_imports
          [default [] module ++ utf8 "."
           ++ join (utf8 ", ") (alias_name <$> names)] analysis
      else analysis
  | FunctionDef name args _ _ _ _ lineno =>
      append_function
        (FunctionInfo.mk name (arg_arg <$> Ast.args args)
           (get_docstring node) lineno) analysis
  | ClassDef name _ _ body _ lineno =>
      append_class
        (ClassInfo.mk name (function_names body) (get_docstring node) lineno)
        analysis
  | _ => analysis
  end.

(** Lines 23 to 52: the analysis of the text [content] parsed as [tree]. *)
Definition analyze_tree (content : str) (tree : node) : Analysis.data :=
  let analysis :=
    Analysis.mk [] [] [] (get_docstring tree) (length (splitlines content)) in
  foldl visit analysis (walk tree).

Definition analyze_python_file (fs : list entry) (filepath : list str)
  : Analysis.t :=
  match
    content ← read_text fs filepath;
    body ← ast_parse content;
    Ok (analyze_tree content (Module body))
  with
  | Ok analysis => Analysis.ok analysis
  | Err e => Analysis.error e
  end.

(** *** collect_files *)

Definition keep_dir (d : str) : bool := bool_decide (d ∉ exclude_dirs self).

(** The body of the loop over [files]. *)
Definition collect_file (fs : list entry) (extensions : list str)
    (root : list str) (files_info : list FileRecord.t) (file : str)
  : result (list FileRecord.t) :=
  let filepath := root ++ [file] in
  if bool_decide (suffix file ∈ extensions) then
    size ← stat_size fs filepath;
    let analysis :=
      if decide (suffix file = utf8 ".py")
      then Some (analyze_python_file fs filepath) else None in
    Ok (files_info ++
          [FileRecord.mk (path_str filepath) size (suffix file) analysis])
  else Ok files_info.

Definition collect_files (fs : list entry) (extensions : option (list str))
  : result (list FileRecord.t) :=
  let extensions := list_or extensions default_extensions in
  for_each (λ files_info '(root, dirs, files),
              for_each (collect_file fs extensions root) files files_info)
    (os_walk keep_dir [] fs) [].

(** *** generate_tree_structure *)

(** [any(file.endswith(ext.replace('*', '')) for ext in self.exclude_files)] *)
Definition excluded_file (file : str) : bool :=
  bool_decide (set_Exists (λ ext, endswith file (remove_char 42 ext) = true)
                 (exclude_files self)).

Definition no_item_assignment : str :=
  utf8 "'str' object does not support item assignment".

Definition no_str_index : str :=
  utf8 "string indices must be integers, not 'str'".

(** One item of the walk: go down from [level] along [parts], creating
    the dictionaries that are missing, and mark the [files] there. Where
    a part is marked as a file, [current_level] becomes the string
    ['file'] and the next use of it raises [TypeError]. *)
Fixpoint add_level (parts : list str) (files : list str)
    (level : list (str * tnode)) : result (list (str * tnode)) :=
  match parts with
  | [] => Ok (foldl (λ level file, dict_set file file_marker level) level files)
  | part :: parts' =>
      match dict_get part level with
      | None =>
          sub ← add_level parts' files [];
          Ok (dict_set part (subtree sub) level)
      | Some (subtree sub) =>
          sub ← add_level parts' files sub;
          Ok (dict_set part (subtree sub) level)
      | Some file_marker =>
          match parts', files with
          | part' :: _, _ =>
              if contains (utf8 "file") part' then Err no_str_index
              else Err no_item_assignment
          | [], _ :: _ => Err no_item_assignment
          | [], [] => Ok level
          end
      end
  end.

Definition generate_tree_structure (fs : list entry)
  : result (list (str * tnode)) :=
  for_each (λ tree '(root, dirs, files),
              add_level root
                (filter (λ file, excluded_file file = false) files) tree)
    (os_walk keep_dir [] fs) [].

(** *** print_tree: the text printed *)

Definition connector (is_last_item : bool) : str :=
  if is_last_item then utf8 "└── " else utf8 "├── ".

Fixpoint print_item (prefix : str) (is_last_item : bool) (name : str)
    (sub : tnode) : str :=
  match sub with
  | file_marker => prefix ++ connector is_last_item ++ name ++ nl
  | subtree items =>
      prefix ++ connector is_last_item ++ name ++ utf8 "/" ++ nl ++
      let extension := if is_last_item then utf8 "    " else utf8 "│   " in
      for_items_last
        (λ is_last_item '(name, sub),
           print_item (prefix ++ extension) is_last_item name sub) items
  end.

Definition print_tree (tree : list (str * tnode)) (prefix : str) : str :=
  for_items_last
    (λ is_last_item '(name, sub), print_item prefix is_last_item name sub)
    tree.

(** *** generate_summary_report *)

Definition py : str := utf8 ".py".

(** [f.get('analysis', {}).get('lines', 0)] *)
Definition lines_of (f : FileRecord.t) : nat :=
  match FileRecord.analysis f with
  | Some (Analysis.ok analysis) => Analysis.lines analysis
  | _ => 0%nat
  end.

(** The lists and the set filled by the loop over [python_files]. *)
Record Aggregate := {
  all_functions : list (Tagged FunctionInfo.t);
  all_classes : list (Tagged ClassInfo.t);
  all_imports : gset str
}.

(** The body of that loop. *)
Definition aggregate (acc : Aggregate) (file_info : FileRecord.t) : Aggregate :=
  match FileRecord.analysis file_info with
  | Some (Analysis.ok analysis) =>
      {| all_functions :=
           foldl (λ all func, all ++ [tag func (FileRecord.path file_info)])
             (all_functions acc) (Analysis.functions analysis);
         all_classes :=
           foldl (λ all cls, all ++ [tag cls (FileRecord.path file_info)])
             (all_classes acc) (Analysis.classes analysis);
         all_imports :=
           all_imports acc ∪ list_to_set (Analysis.imports analysis) |}
  | _ => acc
  end.

Definition report_head (now : datetime) (total_files python_files total_lines
    functions classes imports : nat) : str :=
  utf8 "# Отчет по проекту" ++ nl ++
  utf8 "Дата генерации: " ++ strftime now ++ nl ++
  nl ++
  utf8 "## Общая статистика" ++ nl ++
  utf8 "- Всего файлов: " ++ of_nat total_files ++ nl ++
  utf8 "- Python файлов: " ++ of_nat python_files ++ nl ++
  utf8 "- Строк кода: " ++ of_nat total_lines ++ nl ++
  utf8 "- Функций: " ++ of_nat functions ++ nl ++
  utf8 "- Классов: " ++ of_nat classes ++ nl ++
  utf8 "- Уникальных импортов: " ++ of_nat imports ++ nl ++
  nl ++
  utf8 "## Структура проекта" ++ nl ++
  utf8 "```" ++ nl ++
  root_name self ++ utf8 "/" ++ nl.

(** The body of the loop over the sorted classes. *)
Definition report_class (report : str) (cls : Tagged ClassInfo.t) : str :=
  let report :=
    report ++ utf8 "- **" ++ ClassInfo.name (item cls) ++ utf8 "** ("
    ++ file cls ++ utf8 ")" ++ nl in
  let report :=
    if truthy (ClassInfo.docstring (item cls)) then
      report ++ utf8 "  - "
      ++ take 100 (default [] (ClassInfo.docstring (item cls)))
      ++ utf8 "..." ++ nl
    else report in
  match ClassInfo.methods (item cls) with
  | _ :: _ =>
      report ++ utf8 "  - Методы: "
      ++ join (utf8 ", ") (ClassInfo.methods (item cls)) ++ nl
  | [] => report
  end.

(** The body of the loop over the first sorted functions. *)
Definition report_function (report : str) (func : Tagged FunctionInfo.t) : str :=
  let report :=
    report ++ utf8 "- **" ++ FunctionInfo.name (item func) ++ utf8 "()** ("
    ++ file func ++ utf8 ")" ++ nl in
  let report :=
    if truthy (FunctionInfo.docstring (item func)) then
      report ++ utf8 "  - "
      ++ take 100 (default [] (FunctionInfo.docstring (item func)))
      ++ utf8 "..." ++ nl
    else report in
  match FunctionInfo.args (item func) with
  | _ :: _ =>
      report ++ utf8 "  - Аргументы: "
      ++ join (utf8 ", ") (FunctionInfo.args (item func)) ++ nl
  | [] => report
  end.

Definition report_classes (all_classes : list (Tagged ClassInfo.t))
    (report : str) : str :=
  match all_classes with
  | _ :: _ =>
      let report := report ++ utf8 "## Основные классы" ++ nl in
      let report :=
        foldl report_class report
          (sorted (λ x, ClassInfo.name (item x)) all_classes) in
      report ++ nl
  | [] => report
  end.

Definition report_functions (all_functions : list (Tagged FunctionInfo.t))
    (report : str) : str :=
  match all_functions with
  | _ :: _ =>
      let report := report ++ utf8 "## Основные функции" ++ nl in
      let report :=
        foldl report_function report
          (take 20 (sorted (λ x, FunctionInfo.name (item x)) all_functions)) in
      report ++ nl
  | [] => report
  end.

(** [imports] is the set in the order in which it is iterated. *)
Definition report_imports (imports : list str) (report : str) : str :=
  match imports with
  | _ :: _ =>
      let report := report ++ utf8 "## Основные зависимости" ++ nl in
      let report :=
        foldl (λ report imp, report ++ utf8 "- " ++ imp ++ nl) report
          (take 15 (sorted id imports)) in
      report ++ nl
  | [] => report
  end.

Definition python_files (files_info : list FileRecord.t) : list FileRecord.t :=
  filter (λ f, FileRecord.extension f = py) files_info.

(** Lines 126 to 202: the report for the records [files_info] and the
    dictionary [tree]. [now] is the clock reading and [set_iter] the
    order in which a set of strings is iterated in this run. *)
Definition summary_report (files_info : list FileRecord.t)
    (tree : list (str * tnode)) (now : datetime)
    (set_iter : gset str → list str) : str :=
  let total_files := length files_info in
  let python_files := python_files files_info in
  let total_lines := sum_list_with lines_of python_files in
  let acc := foldl aggregate (Build_Aggregate [] [] ∅) python_files in
  let report :=
    report_head now total_files (length python_files) total_lines
      (length (all_functions acc)) (length (all_classes acc))
      (size (all_imports acc)) in
  let report := report ++ print_tree tree [] in
  let report := report ++ utf8 "```" ++ nl ++ nl in
  let report := report_classes (all_classes acc) report in
  let report := report_functions (all_functions acc) report in
  let report := report_imports (set_iter (all_imports acc)) report in
  report.

(** Lines 122 to 202 and 208: the report that is built and returned. The
    write to [output_file] of lines 205 and 206 is left out: [Ok] says that
    the text was built, not that it was written. *)
Definition generate_summary_report (fs : list entry) (now : datetime)
    (set_iter : gset str → list str) : result str :=
  files_info ← collect_files fs None;
  tree ← generate_tree_structure fs;
  Ok (summary_report files_info tree now set_iter).

(** *** create_consolidated_code *)

Definition default_max_file_size : N := 50000.

Definition quotes : str := [34; 34; 34].

Definition consolidated_head (now : datetime) (python_files : nat) : str :=
  quotes ++ nl ++
  utf8 "=== ОБЪЕДИНЕННЫЙ КОД ПРОЕКТА ===" ++ nl ++
  utf8 "Дата: " ++ strftime now ++ nl ++
  utf8 "Файлов: " ++ of_nat python_files ++ nl ++
  nl ++
  utf8 "СТРУКТУРА:" ++ nl ++
  quotes ++ nl ++
  nl.

Definition rule : str := utf8 "# " ++ repeat_char 61 50 ++ nl.

(** [analysis.get('functions')] and [analysis.get('classes')] *)
Definition functions_of (f : FileRecord.t) : list FunctionInfo.t :=
  match FileRecord.analysis f with
  | Some (Analysis.ok analysis) => Analysis.functions analysis
  | _ => []
  end.

Definition classes_of (f : FileRecord.t) : list ClassInfo.t :=
  match FileRecord.analysis f with
  | Some (Analysis.ok analysis) => Analysis.classes analysis
  | _ => []
  end.

(** The body of the loop over [python_files]. *)
Definition consolidate_file (fs : list entry) (max_file_size : N)
    (consolidated : str) (file_info : FileRecord.t) : str :=
  let filepath := path_parts (FileRecord.path file_info) in
  if max_file_size <? FileRecord.size file_info then
    consolidated ++ utf8 "# === " ++ FileRecord.path file_info
    ++ utf8 " === [ФАЙЛ СЛИШКОМ БОЛЬШОЙ: " ++ of_N (FileRecord.size file_info)
    ++ utf8 " байт]" ++ nl ++ nl
  else
    match read_text fs filepath with
    | Ok content =>
        let consolidated := consolidated ++ rule in
        let consolidated :=
          consolidated ++ utf8 "# ФАЙЛ: " ++ FileRecord.path file_info ++ nl in
        let consolidated :=
          consolidated ++ utf8 "# РАЗМЕР: " ++ of_N (FileRecord.size file_info)
          ++ utf8 " байт" ++ nl in
        let consolidated :=
          match functions_of file_info with
          | _ :: _ =>
              consolidated ++ utf8 "# ФУНКЦИИ: "
              ++ join (utf8 ", ") (FunctionInfo.name <$> functions_of file_info)
              ++ nl
          | [] => consolidated
          end in
        let consolidated :=
          match classes_of file_info with
          | _ :: _ =>
              consolidated ++ utf8 "# КЛАССЫ: "
              ++ join (utf8 ", ") (ClassInfo.name <$> classes_of file_info)
              ++ nl
          | [] => consolidated
          end in
        let consolidated := consolidated ++ rule ++ nl in
        consolidated ++ content ++ nl ++ nl
    | Err e =>
        consolidated ++ utf8 "# === " ++ FileRecord.path file_info
        ++ utf8 " === [ОШИБКА ЧТЕНИЯ: " ++ e ++ utf8 "]" ++ nl ++ nl
    end.

(** Lines 212 to 251 and 256: the consolidated text that is built and
    returned. The write to [output_file] of lines 253 and 254 is left out:
    [Ok] says that the text was built, not that it was written. *)
Definition create_consolidated_code (fs : list entry) (now : datetime)
    (max_file_size : N) : result str :=
  files_info ← collect_files fs None;
  let python_files := python_files files_info in
  let consolidated := consolidated_head now (length python_files) in
  Ok (foldl (consolidate_file fs max_file_size) consolidated python_files).

End collector.

(** * Notions used to state the properties *)

(** ** Syntax trees *)

(** The nodes of a tree, each once: the node, then the nodes below each of
    its children, in field order. *)
Fixpoint descendants (n : node) : list node :=
  n ::
  match n with
  | Module body => flat_map descendants body
  | Import names => (λ _, Other []) <$> names
  | ImportFrom _ names _ => (λ _, Other []) <$> names
  | FunctionDef _ _ args_nodes body decorator_list returns _ =>
      (Other args_nodes :: flat_map descendants args_nodes)
      ++ flat_map descendants body ++ flat_map descendants decorator_list
      ++ match returns with Some r => descendants r | None => [] end
  | ClassDef _ bases keywords body decorator_list _ =>
      flat_map descendants bases ++ flat_map descendants keywords
      ++ flat_map descendants body ++ flat_map descendants decorator_list
  | Expr value => descendants value
  | Constant _ => []
  | Other children => flat_map descendants children
  end.

(** What one node adds to each list of the analysis. *)
Definition no_analysis : Analysis.data := Analysis.mk [] [] [] None 0.

Definition import_ids `{PyLib} (n : node) : list str :=
  Analysis.imports (visit no_analysis n).

Definition function_infos `{PyLib} (n : node) : list FunctionInfo.t :=
  Analysis.functions (visit no_analysis n).

Definition class_infos `{PyLib} (n : node) : list ClassInfo.t :=
  Analysis.classes (visit no_analysis n).

(** ** Lines of a text *)

(** The number of line boundaries of a text, a CR LF pair being one. *)
Fixpoint line_breaks (s : str) : nat :=
  match s with
  | [] => O
  | c :: rest =>
      if is_linebreak c then
        S match rest with
          | c' :: rest' =>
              if bool_decide (c = 13 ∧ c' = 10) then line_breaks rest'
              else line_breaks rest
          | [] => O
          end
      else line_breaks rest
  end.

(** The text ends in the middle of a line: it is not empty and its last
    character is not a line boundary. *)
Definition ends_open (s : str) : bool :=
  match last s with
  | Some c => negb (is_linebreak c)
  | None => false
  end.

(** The same for a text of which the part [cur] of the current line has
    been read already. *)
Definition open_line (cur s : str) : bool :=
  match last s with
  | Some c => negb (is_linebreak c)
  | None => bool_decide (cur ≠ [])
  end.

(** ** Order *)

(** [s <= t] on strings, as [not (t < s)]. *)
Definition str_le (s t : str) : Prop := ltb t s = false.

(** The order of the keys of a sort. *)
Definition key_le {A} (key : A → str) (x y : A) : Prop :=
  str_le (key x) (key y).

(** An iteration order of sets: some enumeration of the elements. *)
Definition iteration_order (set_iter : gset str → list str) : Prop :=
  ∀ s, set_iter s ≡ₚ elements s.

(** ** The file system and the enumeration *)

(** A name that an entry of a directory can have. *)
Definition valid_name (name : str) : Prop := name ≠ [] ∧ sep ∉ name.

(** A snapshot as a file system gives it: the entries of a directory have
    valid names, and no two of them the same name. *)
Fixpoint wf_entry (e : entry) : Prop :=
  valid_name (entry_name e)
  ∧ match e with
    | Dir _ _ sub =>
        NoDup (entry_name <$> sub) ∧ foldr (λ e' P, wf_entry e' ∧ P) True sub
    | File _ _ _ => True
    end.

Definition wf_dir (es : list entry) : Prop :=
  NoDup (entry_name <$> es) ∧ Forall wf_entry es.

(** [file_in es dirs name]: below the directory with entries [es], the
    chain of directories [dirs] leads to a file called [name]. *)
Inductive file_in : list entry → list str → str → Prop :=
| file_in_here es name st_size text :
    File name st_size text ∈ es → file_in es [] name
| file_in_below es d st_size sub dirs name :
    Dir d st_size sub ∈ es → file_in sub dirs name →
    file_in es (d :: dirs) name.

(** The files listed by a walk: the directory and the name. *)
Definition walked (items : list walk_item) : list (list str * str) :=
  flat_map (λ '(root, _, files), (λ file, (root, file)) <$> files) items.

(** The record of the file [file] of the directory [root]. *)
Definition file_record `{PyLib} (fs : list entry) (root : list str) (file : str)
    (size : N) : FileRecord.t :=
  FileRecord.mk (path_str (root ++ [file])) size (suffix file)
    (if decide (suffix file = py)
     then Some (analyze_python_file fs (root ++ [file])) else None).

(** The records of a list of files: those whose suffix is allowed. *)
Definition file_records `{PyLib} (fs : list entry) (extensions : list str)
    (files : list (list str * str)) : list FileRecord.t :=
  flat_map (λ '(root, file),
              if bool_decide (suffix file ∈ extensions) then
                match stat_size fs (root ++ [file]) with
                | Ok size => [file_record fs root file size]
                | Err _ => []
                end
              else []) files.

(** ** The report as the specification words it *)

Definition docstring_line (docstring : option str) : str :=
  match docstring with
  | Some (c :: d) => utf8 "  - " ++ take 100 (c :: d) ++ utf8 "..." ++ nl
  | _ => []
  end.

Definition names_line (label : str) (names : list str) : str :=
  match names with
  | _ :: _ => utf8 "  - " ++ label ++ join (utf8 ", ") names ++ nl
  | [] => []
  end.

Definition class_entry (cls : Tagged ClassInfo.t) : str :=
  utf8 "- **" ++ ClassInfo.name (item cls) ++ utf8 "** (" ++ file cls
  ++ utf8 ")" ++ nl
  ++ docstring_line (ClassInfo.docstring (item cls))
  ++ names_line (utf8 "Методы: ") (ClassInfo.methods (item cls)).

Definition function_entry (func : Tagged FunctionInfo.t) : str :=
  utf8 "- **" ++ FunctionInfo.name (item func) ++ utf8 "()** (" ++ file func
  ++ utf8 ")" ++ nl
  ++ docstring_line (FunctionInfo.docstring (item func))
  ++ names_line (utf8 "Аргументы: ") (FunctionInfo.args (item func)).

Definition import_entry (imp : str) : str := utf8 "- " ++ imp ++ nl.

(** A section: nothing when there are no items, and otherwise the heading,
    the entries shown and an empty line. *)
Definition section {A} (items : list A) (heading : str) (shown : list str) : str :=
  match items with
  | [] => []
  | _ :: _ => heading ++ nl ++ concat shown ++ nl
  end.

Definition classes_section (all_classes : list (Tagged ClassInfo.t)) : str :=
  section all_classes (utf8 "## Основные классы")
    (class_entry <$> sorted (λ x, ClassInfo.name (item x)) all_classes).

Definition functions_section (all_functions : list (Tagged FunctionInfo.t)) : str :=
  section all_functions (utf8 "## Основные функции")
    (function_entry
       <$> take 20 (sorted (λ x, FunctionInfo.name (item x)) all_functions)).

Definition imports_section (all_imports : gset str) : str :=
  section (elements all_imports) (utf8 "## Основные зависимости")
    (import_entry <$> take 15 (sorted id (elements all_imports))).

(** ** The consolidated text as the specification words it *)

(** The banner that stands for a file above the size threshold. *)
Definition placeholder_banner (path : str) (size : N) : str :=
  utf8 "# === " ++ path ++ utf8 " === [ФАЙЛ СЛИШКОМ БОЛЬШОЙ: " ++ of_N size
  ++ utf8 " байт]" ++ nl ++ nl.

(** The banner that stands for a file that cannot be read. *)
Definition error_banner (path : str) (e : str) : str :=
  utf8 "# === " ++ path ++ utf8 " === [ОШИБКА ЧТЕНИЯ: " ++ e ++ utf8 "]"
  ++ nl ++ nl.

Definition banner_names (label : str) (names : list str) : str :=
  match names with
  | _ :: _ => label ++ join (utf8 ", ") names ++ nl
  | [] => []
  end.

(** The banner before the text of a file: a rule, the path, the size, the
    names of the functions and of the classes if there are any, a rule and
    an empty line. *)
Definition file_banner (file_info : FileRecord.t) : str :=
  rule
  ++ utf8 "# ФАЙЛ: " ++ FileRecord.path file_info ++ nl
  ++ utf8 "# РАЗМЕР: " ++ of_N (FileRecord.size file_info) ++ utf8 " байт" ++ nl
  ++ banner_names (utf8 "# ФУНКЦИИ: ") (FunctionInfo.name <$> functions_of file_info)
  ++ banner_names (utf8 "# КЛАССЫ: ") (ClassInfo.name <$> classes_of file_info)
  ++ rule ++ nl.

(** ** Runs *)

(** The lines of a text: the parts between its newline characters. *)
Definition text_lines (s : str) : list str := split 10 s.

(** Two outcomes that are the same except for line [i] of the text: both
    raise the same exception, or both give a text, with the same number of
    lines and the same line everywhere but at [i]. *)
Definition same_except_line (i : nat) (r1 r2 : result str) : Prop :=
  match r1, r2 with
  | Ok a, Ok b =>
      length (text_lines a) = length (text_lines b)
      ∧ ∀ j, j ≠ i → text_lines a !! j = text_lines b !! j
  | Err e1, Err e2 => e1 = e2
  | _, _ => False
  end.

(** Line [i] of the text of an outcome is [line]. *)
Definition has_line (i : nat) (line : str) (r : result str) : Prop :=
  match r with
  | Ok a => text_lines a !! i = Some line
  | Err _ => True
  end.

Definition is_digit (c : N) : Prop := 48 ≤ c ≤ 57.

(** The report after its timestamp line. *)
Definition report_stats (self : ProjectCollector) (total_files python_files
    total_lines functions classes imports : nat) : str :=
  nl ++
  utf8 "## Общая статистика" ++ nl ++
  utf8 "- Всего файлов: " ++ of_nat total_files ++ nl ++
  utf8 "- Python файлов: " ++ of_nat python_files ++ nl ++
  utf8 "- Строк кода: " ++ of_nat total_lines ++ nl ++
  utf8 "- Функций: " ++ of_nat functions ++ nl ++
  utf8 "- Классов: " ++ of_nat classes ++ nl ++
  utf8 "- Уникальных импортов: " ++ of_nat imports ++ nl ++
  nl ++
  utf8 "## Структура проекта" ++ nl ++
  utf8 "```" ++ nl ++
  root_name self ++ utf8 "/" ++ nl.

(** The head of the consolidated text after its timestamp line. *)
Definition consolidated_count (python_files : nat) : str :=
  utf8 "Файлов: " ++ of_nat python_files ++ nl ++
  nl ++
  utf8 "СТРУКТУРА:" ++ nl ++
  quotes ++ nl ++
  nl.

(** ** Further notions *)

(** [analysis.get('imports')] for the record of a file. *)
Definition imports_of (f : FileRecord.t) : list str :=
  match FileRecord.analysis f with
  | Some (Analysis.ok analysis) => Analysis.imports analysis
  | _ => []
  end.

(** The functions and the classes of a file, tagged with its path. *)
Definition tagged_functions (f : FileRecord.t) : list (Tagged FunctionInfo.t) :=
  (λ func, tag func (FileRecord.path f)) <$> functions_of f.

Definition tagged_classes (f : FileRecord.t) : list (Tagged ClassInfo.t) :=
  (λ cls, tag cls (FileRecord.path f)) <$> classes_of f.

(** A part that [pathlib] keeps: not empty, without [/], and not [.]. *)
Definition kept_part (part : str) : Prop := valid_name part ∧ part ≠ [46].

(** ** The tree *)

(** The items of the files of a directory that are not hidden. *)
Definition tree_files (hide : str → bool) (es : list entry) : list (str * tnode) :=
  (λ name, (name, file_marker))
    <$> filter (λ name, hide name = false) (filenames es).

(** The item of a subdirectory that is kept: its files that are not hidden,
    then its own subdirectories. *)
Fixpoint tree_of_entry (keep hide : str → bool) (e : entry)
  : list (str * tnode) :=
  match e with
  | Dir d _ sub =>
      if keep d then
        [(d, subtree (tree_files hide sub
                      ++ flat_map (tree_of_entry keep hide) sub))]
      else []
  | File _ _ _ => []
  end.

(** The dictionary of a directory: files first, then subdirectories, each
    in the order of the listing. *)
Definition tree_of (keep hide : str → bool) (es : list entry)
  : list (str * tnode) :=
  tree_files hide es ++ flat_map (tree_of_entry keep hide) es.

(** The walk item of a directory, seen from its parent [d]. *)
Definition below (d : str) (it : walk_item) : walk_item :=
  let '(root, dirs, files) := it in (d :: root, dirs, files).

(** The body of the loop of [generate_tree_structure]. *)
Definition tree_step (self : ProjectCollector) (tree : list (str * tnode)) (it : walk_item)
  : result (list (str * tnode)) :=
  let '(root, dirs, files) := it in
  add_level root (filter (λ file, excluded_file self file = false) files) tree.


(** The tree of every subdirectory is built as [tree_of] says. *)
Definition tree_built (self : ProjectCollector) (e : entry) : Prop :=
  ∀ d st_size sub,
    e = Dir d st_size sub → wf_dir sub →
    for_each (tree_step self) (os_walk (keep_dir self) [] sub) []
    = Ok (tree_of (keep_dir self) (excluded_file self) sub).

(** ** The printed tree and the lookup in the dictionary *)

(** The number of items of a dictionary, those of its subdirectories
    included. *)
Fixpoint tree_size (t : tnode) : nat :=
  match t with
  | file_marker => 1
  | subtree items => S (sum_list_with (λ p, tree_size p.2) items)
  end.

(** No name in the dictionary has a newline. *)
Fixpoint names_clean (t : tnode) : Prop :=
  match t with
  | file_marker => True
  | subtree items =>
      foldr (λ p P, (10 ∉ p.1) ∧ names_clean p.2 ∧ P) True items
  end.

(** The number of newline characters of a text. *)
Definition newlines (s : str) : nat := length (filter (λ c, c = 10) s).

(** [tree[part]...[part]]: the item reached by a chain of keys, [None]
    where a key is missing or the item before it is a file. *)
Fixpoint tree_lookup (parts : list str) (t : tnode) : option tnode :=
  match parts with
  | [] => Some t
  | part :: rest =>
      match t with
      | subtree items => dict_get part items ≫= tree_lookup rest
      | file_marker => None
      end
  end.



(** * A small project, used to run the definitions *)

Module Sample.

Definition alias_of (s : string) : alias :=
  {| alias_name := utf8 s; alias_asname := None |}.

Definition arguments_of (names : list string) : arguments :=
  {| posonlyargs := []; args := (λ s, {| arg_arg := utf8 s |}) <$> names;
     vararg := None; kwonlyargs := []; kwarg := None |}.

(** A statement or expression that the collector does not look into. *)
Definition leaf : node := Other [].

(** [from os import path, sep] *)
Definition os_text : str := utf8 "from os import path, sep".
Definition os_body : list node :=
  [ImportFrom (Some (utf8 "os")) [alias_of "path"; alias_of "sep"] 0].

(** [from . import x], with its final newline. *)
Definition rel_text : str := utf8 "from . import x" ++ nl.
Definition rel_body : list node := [ImportFrom None [alias_of "x"] 1].

(** A module with a class, a method and a function. *)
Definition shapes_text : str :=
  utf8 "import math" ++ nl ++
  utf8 "class Shape:" ++ nl ++
  utf8 "    '''A shape.'''" ++ nl ++
  utf8 "    def area(self):" ++ nl ++
  utf8 "        return 0" ++ nl ++
  utf8 "def unit(scale, origin):" ++ nl ++
  utf8 "    '''The unit shape.'''" ++ nl ++
  utf8 "    return Shape()".
Definition shapes_body : list node :=
  [Import [alias_of "math"];
   ClassDef (utf8 "Shape") [] []
     [Expr (Constant (CStr (utf8 "A shape.")));
      FunctionDef (utf8 "area") (arguments_of ["self"%string]) [leaf]
        [Other [leaf]] [] None 4]
     [] 2;
   FunctionDef (utf8 "unit") (arguments_of ["scale"; "origin"]%string)
     [leaf; leaf]
     [Expr (Constant (CStr (utf8 "The unit shape.")));
      Other [Other [leaf]]] [] None 6].

(** A class whose docstring is the empty string. *)
Definition quiet_text : str :=
  utf8 "class Quiet:" ++ nl ++
  utf8 "    ''" ++ nl.
Definition quiet_body : list node :=
  [ClassDef (utf8 "Quiet") [] [] [Expr (Constant (CStr []))] [] 1].

(** The parser on the texts above; any other text is rejected here. *)
Definition parsed : list (str * list node) :=
  [(os_text, os_body); (rel_text, rel_body); (shapes_text, shapes_body);
   (quiet_text, quiet_body)].

Definition syntax_error : str := utf8 "invalid syntax (<unknown>, line 1)".

#[export] Instance lib : PyLib := {|
  ast_parse content :=
    match dict_get content parsed with
    | Some body => Ok body
    | None => Err syntax_error
    end;
  cleandoc text := text
|}.

Definition decode_error : str :=
  utf8 "'utf-8' codec can't decode byte 0xff in position 0: invalid start byte".

(** The project directory. *)
Definition project : list entry :=
  [File (utf8 "os_use.py") 24 (Ok os_text);
   File (utf8 "broken.py") 1 (Ok (utf8 "("));
   File (utf8 "binary.py") 2 (Err decode_error);
   File (utf8 "big.py") 50001 (Ok shapes_text);
   File (utf8 "edge.py") 50000 (Ok os_text);
   File (utf8 "README.md") 5 (Ok (utf8 "hello"));
   File (utf8 "notes.rst") 5 (Ok (utf8 "notes"));
   Dir (utf8 "pkg") 4096
     [File (utf8 "__init__.py") 16 (Ok rel_text);
      File (utf8 "shapes.py") 150 (Ok shapes_text);
    File (utf8 "quiet.py") 20 (Ok quiet_text);
      Dir (utf8 "__pycache__") 4096
        [File (utf8 "shapes.py") 300 (Ok [])]];
   Dir (utf8 ".git") 4096
     [File (utf8 "hook.py") 10 (Ok os_text)]].

Definition collector : ProjectCollector := init [utf8 "project"] None None.

Definition noon : datetime :=
  {| year := 2024; month := 3; day := 9; hour := 12; minute := 0; second := 5 |}.

Definition midnight : datetime :=
  {| year := 2025; month := 12; day := 31; hour := 0; minute := 0; second := 0 |}.

(** The record of a file with 21 functions, given from the last name to
    the first, and 16 imports. *)
Definition many_functions : list FunctionInfo.t :=
  (λ i, FunctionInfo.mk (utf8 "f" ++ pad2 (N.of_nat i)) [] None (N.of_nat i))
    <$> reverse (seq 0 21).

Definition many_imports : list str :=
  (λ i, utf8 "m" ++ pad2 (N.of_nat i)) <$> reverse (seq 0 16).

Definition many_record : FileRecord.t :=
  FileRecord.mk (utf8 "many.py") 900 py
    (Some (Analysis.ok (Analysis.mk many_imports many_functions [] None 60))).

(** Records of three files of the project. *)
Definition big_record : FileRecord.t :=
  FileRecord.mk (utf8 "big.py") 50001 py None.

Definition edge_record : FileRecord.t :=
  FileRecord.mk (utf8 "edge.py") 50000 py None.

Definition binary_record : FileRecord.t :=
  FileRecord.mk (utf8 "binary.py") 2 py (Some (Analysis.error decode_error)).

(** Two classes of the project, given against the order of their names. *)
Definition two_classes : list (Tagged ClassInfo.t) :=
  [tag (ClassInfo.mk (utf8 "Square") [utf8 "area"] None 4) (utf8 "pkg/shapes.py");
   tag (ClassInfo.mk (utf8 "Circle") [] (Some (utf8 "A circle.")) 9)
     (utf8 "pkg/shapes.py")].

(** The dictionary of the tree of the project. *)
Definition project_tree : list (str * tnode) :=
  Eval vm_compute in
    tree_of (keep_dir collector) (excluded_file collector) project.

End Sample.

(** * Properties *)

(** ** Lists and loops *)

Lemma elem_of_flat_map {A B} (f : A → list B) (l : list A) (y : B) :
y ∈ flat_map f l ↔ ∃ x, x ∈ l ∧ y ∈ f x.
Proof.
rewrite list_elem_of_In, in_flat_map.
by setoid_rewrite list_elem_of_In.
Qed.

Lemma filter_none {A} (P : A → Prop) `{!∀ x, Decision (P x)} (l : list A) :
  (∀ x, x ∈ l → ¬ P x) → filter P l = [].
Proof.
  induction l as [|x l IH]; intros Hl; [done|].
  rewrite filter_cons_False by (apply Hl, list_elem_of_here).
  apply IH. intros y Hy. by apply Hl, list_elem_of_further.
Qed.

Lemma for_each_app {A S} (step : S → A → result S) l1 l2 acc :
  for_each step (l1 ++ l2) acc
  = acc' ← for_each step l1 acc; for_each step l2 acc'.
Proof.
  revert acc. induction l1 as [|x l1 IH]; intros acc; simpl; [done|].
  destruct (step acc x); simpl; [apply IH|done].
Qed.

Lemma for_each_fmap {A B S} (f : A → B) (step : S → B → result S) l acc :
  for_each step (f <$> l) acc = for_each (λ acc x, step acc (f x)) l acc.
Proof.
  revert acc. induction l as [|x l IH]; intros acc; simpl; [done|].
  destruct (step acc (f x)); simpl; [apply IH|done].
Qed.

(** A loop that appends one entry for each element. *)
Lemma foldl_entries {A} (step : str → A → str) (entry : A → str) l report :
  (∀ report x, step report x = report ++ entry x) →
  foldl step report l = report ++ concat (entry <$> l).
Proof.
  intros Hstep. revert report.
  induction l as [|x l IH]; intros report; simpl; [by rewrite app_nil_r|].
  by rewrite IH, Hstep, <- app_assoc.
Qed.

(** ** Strings: order, sorting, lines *)

Lemma ltb_irrefl s : ltb s s = false.
Proof. induction s as [|a s IH]; simpl; [done|]. by rewrite N.ltb_irrefl. Qed.

Lemma ltb_trichotomy s t : ltb s t = true ∨ s = t ∨ ltb t s = true.
Proof.
  revert t. induction s as [|a s IH]; intros [|b t]; simpl; auto.
  destruct (N.ltb_spec a b), (N.ltb_spec b a); auto; try lia.
  assert (a = b) as -> by lia.
  destruct (IH t) as [?|[->|?]]; auto.
Qed.

Lemma ltb_trans s t u : ltb s t = true → ltb t u = true → ltb s u = true.
Proof.
  revert t u. induction s as [|a s IH]; intros [|b t] [|c u]; simpl; try done.
  destruct (N.ltb_spec a b), (N.ltb_spec b a), (N.ltb_spec b c),
    (N.ltb_spec c b), (N.ltb_spec a c), (N.ltb_spec c a);
    try done; try lia.
  apply IH.
Qed.

Lemma ltb_asym s t : ltb s t = true → ltb t s = false.
Proof.
  intros Hst. destruct (ltb t s) eqn:Hts; [|done].
  pose proof (ltb_trans _ _ _ Hst Hts) as Hss. by rewrite ltb_irrefl in Hss.
Qed.

#[global] Instance str_le_refl : Reflexive str_le.
Proof. intros s. apply ltb_irrefl. Qed.

#[global] Instance str_le_trans : Transitive str_le.
Proof.
  unfold str_le. intros s t u Hst Htu.
  destruct (ltb u s) eqn:Hus; [|done].
  destruct (ltb_trichotomy s t) as [H|[->|H]]; [| |congruence].
  - by rewrite (ltb_trans _ _ _ Hus H) in Htu.
  - congruence.
Qed.

#[global] Instance str_le_antisym : AntiSymm (=) str_le.
Proof.
  unfold str_le. intros s t Hst Hts.
  destruct (ltb_trichotomy s t) as [H|[->|H]]; congruence.
Qed.

#[global] Instance str_le_total : Total str_le.
Proof.
  unfold str_le. intros s t.
  destruct (ltb t s) eqn:H; [right; by apply ltb_asym|by left].
Qed.

Section sorted.
Context {A : Type} (key : A → str).

Lemma insort_Permutation x l : insort key x l ≡ₚ x :: l.
Proof.
  induction l as [|y l IH]; simpl; [done|].
  destruct (ltb (key y) (key x)); [|done].
  rewrite IH. apply Permutation_swap.
Qed.

Lemma sorted_Permutation l : sorted key l ≡ₚ l.
Proof.
  induction l as [|x l IH]; simpl; [done|].
  by rewrite insort_Permutation, IH.
Qed.

Lemma insort_Sorted x l : Sorted (key_le key) l → Sorted (key_le key) (insort key x l).
Proof.
  induction 1 as [|y l Hl IH Hhd]; simpl; [by repeat constructor|].
  destruct (ltb (key y) (key x)) eqn:Hyx.
  - constructor; [done|].
    destruct Hhd as [|z l Hyz]; simpl.
    + constructor. by apply ltb_asym.
    + destruct (ltb (key z) (key x)); constructor; [done|].
      by apply ltb_asym.
  - by repeat constructor.
Qed.

Lemma sorted_Sorted l : Sorted (key_le key) (sorted key l).
Proof. induction l; simpl; [constructor|by apply insort_Sorted]. Qed.

Lemma length_sorted l : length (sorted key l) = length l.
Proof. by rewrite sorted_Permutation. Qed.

(** [sorted] is stable: the elements with a given key keep their order. *)
Lemma insort_stable k x l :
  filter (λ y, key y = k) (insort key x l) = filter (λ y, key y = k) (x :: l).
Proof.
  induction l as [|y l IH]; simpl; [done|].
  destruct (ltb (key y) (key x)) eqn:Hyx; [|done].
  rewrite !filter_cons in *. rewrite IH.
  destruct (decide (key y = k)) as [Hy|], (decide (key x = k)) as [Hx|]; try done.
  rewrite Hy, Hx, ltb_irrefl in Hyx. done.
Qed.

Lemma sorted_stable k l :
  filter (λ y, key y = k) (sorted key l) = filter (λ y, key y = k) l.
Proof.
  induction l as [|x l IH]; simpl; [done|].
  by rewrite insort_stable, !filter_cons, IH.
Qed.
End sorted.

Lemma sorted_id_Permutation (l1 l2 : list str) :
  l1 ≡ₚ l2 → sorted id l1 = sorted id l2.
Proof.
  intros Hl. apply (Sorted_unique str_le).
  - apply (sorted_Sorted id).
  - apply (sorted_Sorted id).
  - by rewrite !sorted_Permutation.
Qed.

(** *** The number of lines of [splitlines] *)

Lemma splitlines_from_cons cur c rest :
  splitlines_from cur (c :: rest)
  = if is_linebreak c then
      reverse cur ::
        match rest with
        | c' :: rest' =>
            if bool_decide (c = 13 ∧ c' = 10) then splitlines_from [] rest'
            else splitlines_from [] rest
        | [] => []
        end
    else splitlines_from (c :: cur) rest.
Proof. done. Qed.

Lemma line_breaks_cons c rest :
  line_breaks (c :: rest)
  = if is_linebreak c then
      S match rest with
        | c' :: rest' =>
            if bool_decide (c = 13 ∧ c' = 10) then line_breaks rest'
            else line_breaks rest
        | [] => O
        end
    else line_breaks rest.
Proof. done. Qed.

Lemma open_line_cur cur c s : open_line cur (c :: s) = open_line [] (c :: s).
Proof.
  unfold open_line. destruct (last (c :: s)) eqn:E; [done|].
  by apply last_None in E.
Qed.

Lemma open_line_cons cur c c' rest :
  open_line cur (c :: c' :: rest) = open_line [] (c' :: rest).
Proof.
  unfold open_line. rewrite last_cons_cons.
  destruct (last (c' :: rest)) eqn:E; [done|]. by apply last_None in E.
Qed.

Lemma length_splitlines_from s : ∀ cur,
  length (splitlines_from cur s)
  = (line_breaks s + if open_line cur s then 1 else 0)%nat.
Proof.
  induction s as [s IH] using (induction_ltof1 _ (@length N)). unfold ltof in IH.
  intros cur. destruct s as [|c rest].
  - unfold open_line. by destruct cur.
  - rewrite splitlines_from_cons, line_breaks_cons.
    destruct (is_linebreak c) eqn:Hc.
    + destruct rest as [|c' rest'].
      { unfold open_line. simpl. by rewrite Hc. }
      rewrite open_line_cons. cbn [length].
      case_bool_decide as Hcr; rewrite IH by (simpl; lia); [|done].
      destruct Hcr as [_ ->]. f_equal. f_equal. unfold open_line.
      destruct rest' as [|c'' rest']; [done|]. by rewrite last_cons_cons.
    + rewrite IH by (simpl; lia). f_equal.
      destruct rest as [|c' rest'];
        [|by rewrite (open_line_cons _ c), (open_line_cur (c :: cur))].
      unfold open_line. simpl. by rewrite Hc.
Qed.

Lemma length_splitlines s :
  length (splitlines s) = (line_breaks s + if ends_open s then 1 else 0)%nat.
Proof.
  unfold splitlines. rewrite length_splitlines_from. unfold open_line, ends_open.
  destruct (last s); [done|]. by rewrite bool_decide_false by (by intros []).
Qed.

(** ** The source analyzer *)

Section analyzer.
Context `{PyLib}.

Lemma descendants_unfold n :
descendants n = n :: flat_map descendants (iter_child_nodes n).
Proof.
assert (Hleaf : ∀ names : list alias,
  flat_map descendants ((λ _, Other []) <$> names) = (λ _, Other []) <$> names).
{ induction names as [|a names IH]; csimpl; [done|]. by rewrite IH. }
destruct n as [| names | ? names ? | ? ? ? ? ? [r|] ? | | | |]; simpl;
  rewrite ?Hleaf, ?flat_map_app; simpl; rewrite ?app_nil_r; done.
Qed.

Lemma walk_queue_descendants todo :
walk_queue todo ≡ₚ flat_map descendants todo.
Proof.
funelim (walk_queue todo); simp walk_queue; [done|].
rewrite H0. simpl. rewrite (descendants_unfold n), flat_map_app. simpl.
f_equiv. apply Permutation_app_comm.
Qed.

Lemma walk_descendants tree : walk tree ≡ₚ descendants tree.
Proof.
unfold walk. rewrite walk_queue_descendants. simpl. by rewrite app_nil_r.
Qed.

Lemma visit_imports a n :
Analysis.imports (visit a n) = Analysis.imports a ++ import_ids n.
Proof.
unfold import_ids. destruct n; simpl; rewrite ?app_nil_r; try done.
destruct (truthy module); simpl; by rewrite ?app_nil_r.
Qed.

Lemma visit_functions a n :
Analysis.functions (visit a n) = Analysis.functions a ++ function_infos n.
Proof.
unfold function_infos. destruct n; simpl; rewrite ?app_nil_r; try done.
destruct (truthy module); simpl; by rewrite ?app_nil_r.
Qed.

Lemma visit_classes a n :
Analysis.classes (visit a n) = Analysis.classes a ++ class_infos n.
Proof.
unfold class_infos. destruct n; simpl; rewrite ?app_nil_r; try done.
destruct (truthy module); simpl; by rewrite ?app_nil_r.
Qed.

Lemma visit_lines a n : Analysis.lines (visit a n) = Analysis.lines a.
Proof. destruct n; simpl; try done. by destruct (truthy module). Qed.

Lemma foldl_visit_imports l a :
Analysis.imports (foldl visit a l) = Analysis.imports a ++ flat_map import_ids l.
Proof.
revert a. induction l as [|n l IH]; intros a; simpl; [by rewrite app_nil_r|].
by rewrite IH, visit_imports, <- app_assoc.
Qed.

Lemma foldl_visit_functions l a :
Analysis.functions (foldl visit a l)
= Analysis.functions a ++ flat_map function_infos l.
Proof.
revert a. induction l as [|n l IH]; intros a; simpl; [by rewrite app_nil_r|].
by rewrite IH, visit_functions, <- app_assoc.
Qed.

Lemma foldl_visit_classes l a :
Analysis.classes (foldl visit a l) = Analysis.classes a ++ flat_map class_infos l.
Proof.
revert a. induction l as [|n l IH]; intros a; simpl; [by rewrite app_nil_r|].
by rewrite IH, visit_classes, <- app_assoc.
Qed.

Lemma foldl_visit_lines l a : Analysis.lines (foldl visit a l) = Analysis.lines a.
Proof.
revert a. induction l as [|n l IH]; intros a; simpl; [done|].
by rewrite IH, visit_lines.
Qed.

Lemma analyze_python_file_ok fs filepath content body :
read_text fs filepath = Ok content → ast_parse content = Ok body →
analyze_python_file fs filepath = Analysis.ok (analyze_tree content (Module body)).
Proof. intros Hr Hp. unfold analyze_python_file. rewrite Hr. simpl. by rewrite Hp. Qed.

Lemma walk_queue_todo todo n : n ∈ todo → n ∈ walk_queue todo.
Proof.
rewrite walk_queue_descendants. intros Hn.
apply elem_of_flat_map. exists n. split; [done|].
destruct n; simpl; apply list_elem_of_here.
Qed.

Lemma walk_queue_children todo n c :
n ∈ walk_queue todo → c ∈ iter_child_nodes n → c ∈ walk_queue todo.
Proof.
funelim (walk_queue todo); simp walk_queue; intros Hn Hc.
- by apply elem_of_nil in Hn.
- apply elem_of_cons in Hn as [->|Hn]; apply list_elem_of_further.
  + apply walk_queue_todo, elem_of_app. by right.
  + by apply (H0 n0).
Qed.

Lemma function_infos_spec n f :
f ∈ function_infos n ↔
∃ name args args_nodes body decorator_list returns lineno,
  n = FunctionDef name args args_nodes body decorator_list returns lineno
  ∧ f = FunctionInfo.mk name (arg_arg <$> Ast.args args) (get_docstring n) lineno.
Proof.
unfold function_infos. split.
- destruct n; simpl; try (by intros ?%elem_of_nil).
  + destruct (truthy module); simpl; by intros ?%elem_of_nil.
  + intros ->%list_elem_of_singleton. by repeat eexists.
- intros (?&?&?&?&?&?&?&->&->). simpl. apply list_elem_of_singleton. done.
Qed.

Lemma class_infos_spec n c :
c ∈ class_infos n →
∃ name bases keywords body decorator_list lineno,
  n = ClassDef name bases keywords body decorator_list lineno
  ∧ c = ClassInfo.mk name (function_names body) (get_docstring n) lineno.
Proof.
unfold class_infos. destruct n; simpl; try (by intros ?%elem_of_nil).
- destruct (truthy module); simpl; by intros ?%elem_of_nil.
- intros ->%list_elem_of_singleton. by repeat eexists.
Qed.

Lemma function_names_spec body name :
name ∈ function_names body →
∃ args args_nodes b decorator_list returns lineno,
  FunctionDef name args args_nodes b decorator_list returns lineno ∈ body.
Proof.
unfold function_names. intros (n & Hn & Hname)%list_elem_of_omap.
destruct n; try done. injection Hname as ->. by repeat eexists.
Qed.


(** The analysis of a file that is read and parsed. *)
Lemma analysis_of_parsed_file fs filepath content body :
read_text fs filepath = Ok content → ast_parse content = Ok body →
∃ analysis,
  analyze_python_file fs filepath = Analysis.ok analysis
  ∧ analysis = analyze_tree content (Module body).
Proof. intros Hr Hp. eexists. split; [by apply analyze_python_file_ok|done]. Qed.

(** C1. Every [from X import A, B] with a non-empty module name adds exactly
  one string to the import list of the analysis, the module name, a dot
  and the imported names joined with [", "]: the import list is the
  concatenation, over the nodes of the tree in the order of the walk, of
  what each node adds, the walk yields every node of the tree once, and
  such a node adds this single string. *)
Theorem from_import_single_identifier fs filepath content body :
read_text fs filepath = Ok content → ast_parse content = Ok body →
∃ analysis,
  analyze_python_file fs filepath = Analysis.ok analysis
  ∧ Analysis.imports analysis = flat_map import_ids (walk (Module body))
  ∧ walk (Module body) ≡ₚ descendants (Module body)
  ∧ ∀ module names level, module ≠ [] →
      import_ids (ImportFrom (Some module) names level)
      = [module ++ utf8 "." ++ join (utf8 ", ") (alias_name <$> names)].
Proof.
intros Hr Hp. eexists. split; [by apply analyze_python_file_ok|].
split; [|split].
- unfold analyze_tree. by rewrite foldl_visit_imports.
- apply walk_descendants.
- intros [|c module] names level Hm; [done|]. reflexivity.
Qed.

(** C10. A from-import without a module name ([from . import x], whose
  [module] is [None]) adds nothing to the import list: the step of the
  loop leaves the analysis as it was, and the import list is the one the
  walk gives without this node. The same holds for an empty name. *)
Theorem relative_import_dropped fs filepath content body :
read_text fs filepath = Ok content → ast_parse content = Ok body →
∃ analysis,
  analyze_python_file fs filepath = Analysis.ok analysis
  ∧ Analysis.imports analysis = flat_map import_ids (walk (Module body))
  ∧ (∀ names level,
       import_ids (ImportFrom None names level) = []
       ∧ import_ids (ImportFrom (Some []) names level) = []
       ∧ ∀ so_far, visit so_far (ImportFrom None names level) = so_far)
  ∧ (∀ before names level after,
       walk (Module body) = before ++ ImportFrom None names level :: after →
       Analysis.imports analysis = flat_map import_ids (before ++ after)).
Proof.
intros Hr Hp. eexists. split; [by apply analyze_python_file_ok|].
assert (Himp : Analysis.imports (analyze_tree content (Module body))
               = flat_map import_ids (walk (Module body))).
{ unfold analyze_tree. by rewrite foldl_visit_imports. }
split; [done|]. split; [done|].
intros before names level after Hwalk.
by rewrite Himp, Hwalk, !flat_map_app.
Qed.

(** C4. The functions of the analysis are those of all the nodes of the
  tree, so every [FunctionDef] anywhere in it is collected, and every
  method name listed for a class is the name of a collected function. *)
Theorem methods_among_functions fs filepath content body :
read_text fs filepath = Ok content → ast_parse content = Ok body →
∃ analysis,
  analyze_python_file fs filepath = Analysis.ok analysis
  ∧ Analysis.functions analysis = flat_map function_infos (walk (Module body))
  ∧ (∀ n, n ∈ descendants (Module body) →
       ∀ f, f ∈ function_infos n → f ∈ Analysis.functions analysis)
  ∧ (∀ name args args_nodes b decorator_list returns lineno,
       FunctionDef name args args_nodes b decorator_list returns lineno
         ∈ descendants (Module body) →
       name ∈ FunctionInfo.name <$> Analysis.functions analysis)
  ∧ (∀ cls method,
       cls ∈ Analysis.classes analysis → method ∈ ClassInfo.methods cls →
       method ∈ FunctionInfo.name <$> Analysis.functions analysis).
Proof.
intros Hr Hp. eexists. split; [by apply analyze_python_file_ok|].
assert (Hf : Analysis.functions (analyze_tree content (Module body))
             = flat_map function_infos (walk (Module body))).
{ unfold analyze_tree. by rewrite foldl_visit_functions. }
assert (Hall : ∀ n, n ∈ walk (Module body) →
          ∀ f, f ∈ function_infos n →
          f ∈ Analysis.functions (analyze_tree content (Module body))).
{ intros n Hn f Hfn. rewrite Hf. apply elem_of_flat_map. by exists n. }
split; [done|]. split; [|split].
- intros n Hn. apply Hall. by rewrite walk_descendants.
- intros name args args_nodes b dl r ln Hn. apply list_elem_of_fmap.
  eexists. split; [|eapply Hall; [by rewrite walk_descendants|]].
  2: { apply function_infos_spec. by repeat eexists. }
  done.
- intros cls method Hcls Hm.
  unfold analyze_tree in Hcls. rewrite foldl_visit_classes in Hcls. simpl in Hcls.
  apply elem_of_flat_map in Hcls as (n & Hn & Hc).
  apply class_infos_spec in Hc as (name & bases & kws & cbody & dl & ln & -> & ->).
  simpl in Hm. apply function_names_spec in Hm as (a & an & b & fdl & r & fln & Hin).
  apply list_elem_of_fmap. eexists. split; [|eapply Hall].
  2: { eapply walk_queue_children; [exact Hn|]. simpl.
       rewrite !elem_of_app. right. right. left. exact Hin. }
  2: { apply function_infos_spec. by repeat eexists. }
  done.
Qed.

(** C2, as amended. The line count of a parsed file is the length of
  [content.splitlines()]: the number of line boundaries of the text, plus
  one exactly when the text ends in the middle of a line. A last line
  without a final newline is counted; a final newline adds no line. *)
Theorem line_count_splitlines fs filepath content body :
read_text fs filepath = Ok content → ast_parse content = Ok body →
∃ analysis,
  analyze_python_file fs filepath = Analysis.ok analysis
  ∧ Analysis.lines analysis = length (splitlines content)
  ∧ Analysis.lines analysis
    = (line_breaks content + if ends_open content then 1 else 0)%nat.
Proof.
intros Hr Hp. eexists. split; [by apply analyze_python_file_ok|].
unfold analyze_tree. rewrite foldl_visit_lines. simpl.
split; [done|apply length_splitlines].
Qed.

(** *** Files that cannot be analyzed *)

Lemma analyze_python_file_error fs filepath msg :
(read_text fs filepath = Err msg
 ∨ ∃ content, read_text fs filepath = Ok content ∧ ast_parse content = Err msg) →
analyze_python_file fs filepath = Analysis.error msg.
Proof.
unfold analyze_python_file. intros [Hr|(content & Hr & Hp)]; rewrite Hr; simpl;
  [done|by rewrite Hp].
Qed.

Lemma python_files_app l1 l2 :
python_files (l1 ++ l2) = python_files l1 ++ python_files l2.
Proof. apply filter_app. Qed.

Lemma python_files_cons_py r l :
FileRecord.extension r = py → python_files (r :: l) = r :: python_files l.
Proof. intros Hr. unfold python_files. by rewrite filter_cons_True. Qed.

(** C3. When reading or parsing a file fails, [analyze_python_file] returns
  the error variant with the message of the failure. The enumeration
  still appends the record of the file, which counts in the number of
  files and of Python files, adds no line to the total and leaves the
  lists of functions and classes and the set of imports as they are. *)
Theorem parse_failure_recorded fs extensions root file msg size files_info :
(read_text fs (root ++ [file]) = Err msg
 ∨ ∃ content, read_text fs (root ++ [file]) = Ok content
              ∧ ast_parse content = Err msg) →
suffix file = py → py ∈ extensions →
stat_size fs (root ++ [file]) = Ok size →
let record :=
  FileRecord.mk (path_str (root ++ [file])) size py
    (Some (Analysis.error msg)) in
analyze_python_file fs (root ++ [file]) = Analysis.error msg
∧ collect_file fs extensions root files_info file = Ok (files_info ++ [record])
∧ ∀ before after acc,
    length (before ++ record :: after) = S (length (before ++ after))
    ∧ length (python_files (before ++ record :: after))
      = S (length (python_files (before ++ after)))
    ∧ sum_list_with lines_of (python_files (before ++ record :: after))
      = sum_list_with lines_of (python_files (before ++ after))
    ∧ foldl aggregate acc (python_files (before ++ record :: after))
      = foldl aggregate acc (python_files (before ++ after)).
Proof.
intros Hfail Hsuffix Hext Hstat record.
pose proof (analyze_python_file_error _ _ _ Hfail) as Herr.
split; [done|]. split.
- unfold collect_file. rewrite Hsuffix, bool_decide_true by done.
  rewrite Hstat. cbn [mbind result_bind]. rewrite decide_True by done. by rewrite Herr.
- intros before after acc.
  rewrite !python_files_app, python_files_cons_py by done.
  rewrite !length_app, !sum_list_with_app, !foldl_app. simpl.
  repeat split; lia.
Qed.

End analyzer.

(** *** The analyzer on the sample project *)

Section analyzer_examples.
Import Sample.

(** [from os import path, sep] gives the single identifier
    ["os.path, sep"]. *)
Example os_use_imports :
  analyze_python_file project [utf8 "os_use.py"]
  = Analysis.ok (Analysis.mk [utf8 "os.path, sep"] [] [] None 1).
Proof. vm_compute. reflexivity. Qed.

Lemma from_import_single_identifier_witness :
  ∃ analysis,
    analyze_python_file project [utf8 "os_use.py"] = Analysis.ok analysis
    ∧ Analysis.imports analysis = flat_map import_ids (walk (Module os_body))
    ∧ walk (Module os_body) ≡ₚ descendants (Module os_body)
    ∧ ∀ module names level, module ≠ [] →
        import_ids (ImportFrom (Some module) names level)
        = [module ++ utf8 "." ++ join (utf8 ", ") (alias_name <$> names)].
Proof.
  apply (from_import_single_identifier project [utf8 "os_use.py"] os_text);
    vm_compute; reflexivity.
Defined.

(** [from . import x] gives no identifier. *)
Example relative_import_imports :
  analyze_python_file project [utf8 "pkg"; utf8 "__init__.py"]
  = Analysis.ok (Analysis.mk [] [] [] None 1).
Proof. vm_compute. reflexivity. Qed.

Lemma relative_import_dropped_witness :
  ∃ analysis,
    analyze_python_file project [utf8 "pkg"; utf8 "__init__.py"]
    = Analysis.ok analysis
    ∧ Analysis.imports analysis = flat_map import_ids (walk (Module rel_body))
    ∧ (∀ names level,
         import_ids (ImportFrom None names level) = []
         ∧ import_ids (ImportFrom (Some []) names level) = []
         ∧ ∀ so_far, visit so_far (ImportFrom None names level) = so_far)
    ∧ (∀ before names level after,
         walk (Module rel_body) = before ++ ImportFrom None names level :: after →
         Analysis.imports analysis = flat_map import_ids (before ++ after)).
Proof.
  apply (relative_import_dropped project [utf8 "pkg"; utf8 "__init__.py"]
           rel_text);
    vm_compute; reflexivity.
Defined.

(** The method [area] of [Shape] is also in the flat list of functions. *)
Example shapes_functions :
  ∃ analysis,
    analyze_python_file project [utf8 "pkg"; utf8 "shapes.py"]
    = Analysis.ok analysis
    ∧ FunctionInfo.name <$> Analysis.functions analysis
      = [utf8 "unit"; utf8 "area"]
    ∧ ClassInfo.methods <$> Analysis.classes analysis = [[utf8 "area"]]
    ∧ ClassInfo.docstring <$> Analysis.classes analysis
      = [Some (utf8 "A shape.")]
    ∧ Analysis.lines analysis = 8%nat.
Proof. eexists. split; [vm_compute; reflexivity|]. vm_compute. done. Qed.

Lemma methods_among_functions_witness :
  ∃ analysis,
    analyze_python_file project [utf8 "pkg"; utf8 "shapes.py"]
    = Analysis.ok analysis
    ∧ Analysis.functions analysis
      = flat_map function_infos (walk (Module shapes_body))
    ∧ (∀ n, n ∈ descendants (Module shapes_body) →
         ∀ f, f ∈ function_infos n → f ∈ Analysis.functions analysis)
    ∧ (∀ name args args_nodes b decorator_list returns lineno,
         FunctionDef name args args_nodes b decorator_list returns lineno
           ∈ descendants (Module shapes_body) →
         name ∈ FunctionInfo.name <$> Analysis.functions analysis)
    ∧ (∀ cls method,
         cls ∈ Analysis.classes analysis → method ∈ ClassInfo.methods cls →
         method ∈ FunctionInfo.name <$> Analysis.functions analysis).
Proof.
  apply (methods_among_functions project [utf8 "pkg"; utf8 "shapes.py"]
           shapes_text);
    vm_compute; reflexivity.
Defined.

(** C2, as stated, fails on a text that ends with a newline:
    [from . import x] followed by a newline is one line and has one line
    boundary, which the claim counts as two lines. *)
Lemma line_count_trailing_newline :
  read_text project [utf8 "pkg"; utf8 "__init__.py"] = Ok rel_text
  ∧ ast_parse rel_text = Ok rel_body
  ∧ line_breaks rel_text = 1%nat
  ∧ ∃ analysis,
      analyze_python_file project [utf8 "pkg"; utf8 "__init__.py"]
      = Analysis.ok analysis
      ∧ Analysis.lines analysis = 1%nat
      ∧ Analysis.lines analysis ≠ S (line_breaks rel_text).
Proof.
  split; [vm_compute; reflexivity|]. split; [vm_compute; reflexivity|].
  split; [vm_compute; reflexivity|].
  eexists. split; [vm_compute; reflexivity|]. vm_compute. split; [done|lia].
Qed.

Lemma line_count_splitlines_witness :
  ∃ analysis,
    analyze_python_file project [utf8 "pkg"; utf8 "shapes.py"]
    = Analysis.ok analysis
    ∧ Analysis.lines analysis = length (splitlines shapes_text)
    ∧ Analysis.lines analysis
      = (line_breaks shapes_text + if ends_open shapes_text then 1 else 0)%nat.
Proof.
  apply (line_count_splitlines project [utf8 "pkg"; utf8 "shapes.py"]
           shapes_text shapes_body);
    vm_compute; reflexivity.
Defined.

(** [broken.py] does not parse and [binary.py] cannot be decoded. *)
Example broken_analysis :
  analyze_python_file project [utf8 "broken.py"] = Analysis.error syntax_error
  ∧ analyze_python_file project [utf8 "binary.py"] = Analysis.error decode_error.
Proof. split; vm_compute; reflexivity. Qed.

Lemma parse_failure_recorded_witness :
  let record :=
    FileRecord.mk (path_str ([] ++ [utf8 "broken.py"])) 1 py
      (Some (Analysis.error syntax_error)) in
  analyze_python_file project ([] ++ [utf8 "broken.py"])
  = Analysis.error syntax_error
  ∧ collect_file project default_extensions [] [] (utf8 "broken.py")
    = Ok ([] ++ [record])
  ∧ ∀ before after acc,
      length (before ++ record :: after) = S (length (before ++ after))
      ∧ length (python_files (before ++ record :: after))
        = S (length (python_files (before ++ after)))
      ∧ sum_list_with lines_of (python_files (before ++ record :: after))
        = sum_list_with lines_of (python_files (before ++ after))
      ∧ foldl aggregate acc (python_files (before ++ record :: after))
        = foldl aggregate acc (python_files (before ++ after)).
Proof.
  apply (parse_failure_recorded project default_extensions [] (utf8 "broken.py")
           syntax_error 1 []).
  - right. exists (utf8 "("). split; vm_compute; reflexivity.
  - vm_compute. reflexivity.
  - vm_compute. apply list_elem_of_here.
  - vm_compute. reflexivity.
Defined.

End analyzer_examples.

(** ** The report generator *)

Section report.
Context `{PyLib}.
Variable self : ProjectCollector.

Lemma report_class_entry report cls :
  report_class report cls = report ++ class_entry cls.
Proof.
  unfold report_class, class_entry, docstring_line, names_line.
  destruct (ClassInfo.docstring (item cls)) as [[|c d]|],
    (ClassInfo.methods (item cls)); cbn [truthy default];
    rewrite <- ?app_assoc; cbn [app]; rewrite ?app_nil_r; try done.

Qed.

Lemma report_function_entry report func :
  report_function report func = report ++ function_entry func.
Proof.
  unfold report_function, function_entry, docstring_line, names_line.
  destruct (FunctionInfo.docstring (item func)) as [[|c d]|],
    (FunctionInfo.args (item func)); cbn [truthy default];
    rewrite <- ?app_assoc; cbn [app]; rewrite ?app_nil_r; try done.
Qed.

Lemma report_classes_section all_classes report :
  report_classes all_classes report = report ++ classes_section all_classes.
Proof.
  unfold report_classes, classes_section, section.
  destruct all_classes as [|c l]; [by rewrite app_nil_r|].
  rewrite (foldl_entries _ class_entry) by apply report_class_entry.
  by rewrite <- !app_assoc.
Qed.

Lemma report_functions_section all_functions report :
  report_functions all_functions report
  = report ++ functions_section all_functions.
Proof.
  unfold report_functions, functions_section, section.
  destruct all_functions as [|f l]; [by rewrite app_nil_r|].
  rewrite (foldl_entries _ function_entry) by apply report_function_entry.
  by rewrite <- !app_assoc.
Qed.

Lemma report_imports_section set_iter all_imports report :
  iteration_order set_iter →
  report_imports (set_iter all_imports) report
  = report ++ imports_section all_imports.
Proof.
  intros Hiter. unfold report_imports, imports_section, section.
  rewrite (sorted_id_Permutation _ _ (Hiter all_imports)).
  pose proof (Hiter all_imports) as Hp.
  destruct (set_iter all_imports) as [|i l], (elements all_imports) as [|i' l'].
  - by rewrite app_nil_r.
  - by apply Permutation_nil_l in Hp.
  - by apply Permutation_nil_r in Hp.
  - rewrite (foldl_entries _ import_entry) by done.
    by rewrite <- !app_assoc.
Qed.

Lemma summary_report_sections files_info tree now set_iter :
  iteration_order set_iter →
  let acc := foldl aggregate (Build_Aggregate [] [] ∅) (python_files files_info) in
  summary_report self files_info tree now set_iter
  = report_head self now (length files_info) (length (python_files files_info))
      (sum_list_with lines_of (python_files files_info))
      (length (all_functions acc)) (length (all_classes acc))
      (size (all_imports acc))
    ++ print_tree tree [] ++ utf8 "```" ++ nl ++ nl
    ++ classes_section (all_classes acc)
    ++ functions_section (all_functions acc)
    ++ imports_section (all_imports acc).
Proof.
  intros Hiter acc. unfold summary_report. fold acc.
  rewrite report_imports_section, report_functions_section,
    report_classes_section by done.
  by rewrite <- !app_assoc.
Qed.

Lemma section_cons {A} (x : A) items heading shown :
  section (x :: items) heading shown = heading ++ nl ++ concat shown ++ nl.
Proof. done. Qed.

Lemma section_nonempty {A} (items : list A) heading shown :
  items ≠ [] → section items heading shown = heading ++ nl ++ concat shown ++ nl.
Proof. by destruct items. Qed.

Lemma concat_entry_elem_of {A} (entry : A → str) x l :
  x ∈ l → ∃ before after, concat (entry <$> l) = before ++ entry x ++ after.
Proof.
  intros (l1 & l2 & ->)%list_elem_of_split.
  exists (concat (entry <$> l1)), (concat (entry <$> l2)).
  by rewrite fmap_app, concat_app.
Qed.

Lemma sorted_elements_NoDup (s : gset str) : NoDup (sorted id (elements s)).
Proof. rewrite sorted_Permutation. apply NoDup_elements. Qed.

Lemma elem_of_sorted_elements (s : gset str) i :
  i ∈ sorted id (elements s) ↔ i ∈ s.
Proof. by rewrite sorted_Permutation, elem_of_elements. Qed.

(** C6. The report ends with the three sections. A section without items
    is empty. With more than 20 functions the functions section has exactly
    20 entries, those of the first 20 functions in the order of their
    names. The imports section has the entries of at most 15 identifiers,
    the first of the identifiers of the set in increasing order, each once,
    however the set is iterated. *)
Theorem report_sections files_info tree now set_iter :
  iteration_order set_iter →
  let acc := foldl aggregate (Build_Aggregate [] [] ∅) (python_files files_info) in
  let functions := sorted (λ x, FunctionInfo.name (item x)) (all_functions acc) in
  let imports := sorted id (elements (all_imports acc)) in
  summary_report self files_info tree now set_iter
  = report_head self now (length files_info) (length (python_files files_info))
      (sum_list_with lines_of (python_files files_info))
      (length (all_functions acc)) (length (all_classes acc))
      (size (all_imports acc))
    ++ print_tree tree [] ++ utf8 "```" ++ nl ++ nl
    ++ classes_section (all_classes acc)
    ++ functions_section (all_functions acc)
    ++ imports_section (all_imports acc)
  ∧ (all_classes acc = [] → classes_section (all_classes acc) = [])
  ∧ (all_functions acc = [] → functions_section (all_functions acc) = [])
  ∧ (all_imports acc = ∅ → imports_section (all_imports acc) = [])
  ∧ (20 < length (all_functions acc) →
       length (take 20 functions) = 20
       ∧ functions_section (all_functions acc)
         = utf8 "## Основные функции" ++ nl
           ++ concat (function_entry <$> take 20 functions) ++ nl)%nat
  ∧ functions ≡ₚ all_functions acc
  ∧ Sorted (key_le (λ x, FunctionInfo.name (item x))) functions
  ∧ (all_imports acc ≠ ∅ →
       imports_section (all_imports acc)
       = utf8 "## Основные зависимости" ++ nl
         ++ concat (import_entry <$> take 15 imports) ++ nl)
  ∧ (length (take 15 imports) ≤ 15)%nat
  ∧ NoDup imports ∧ Sorted str_le imports
  ∧ ∀ imp, imp ∈ imports ↔ imp ∈ all_imports acc.
Proof.
  intros Hiter acc functions imports.
  split; [by apply summary_report_sections|].
  split; [by intros Hnil; rewrite Hnil|]. split; [by intros Hnil; rewrite Hnil|].
  split; [intros Hempty; unfold imports_section; by rewrite Hempty, elements_empty|].
  split.
  { intros Hlen. split.
    - rewrite length_take. unfold functions. rewrite length_sorted. lia.
    - unfold functions_section. apply section_nonempty. intros Hnil.
      rewrite Hnil in Hlen. simpl in Hlen. lia. }
  split; [apply sorted_Permutation|]. split; [apply sorted_Sorted|].
  split.
  { intros Hne. unfold imports_section. apply section_nonempty.
    intros Hel. apply Hne. by apply leibniz_equiv, elements_empty_inv. }
  split; [rewrite length_take; lia|].
  split; [apply sorted_elements_NoDup|].
  split; [apply (sorted_Sorted id)|apply elem_of_sorted_elements].
Qed.

(** C8, as amended. A docstring that is present and not empty is rendered
    as its first 100 characters followed by an ellipsis, whatever its
    length; a docstring that is the empty string gives no docstring line,
    as an absent one. This holds for every class of the report and for
    every function among the first 20. *)
Theorem docstring_rendered report cls func :
  (∀ class_doc,
     ClassInfo.docstring (item cls) = Some class_doc → class_doc ≠ [] →
     report_class report cls
     = report ++ utf8 "- **" ++ ClassInfo.name (item cls) ++ utf8 "** ("
       ++ file cls ++ utf8 ")" ++ nl
       ++ utf8 "  - " ++ take 100 class_doc ++ utf8 "..." ++ nl
       ++ names_line (utf8 "Методы: ") (ClassInfo.methods (item cls))
     ∧ ((length class_doc < 100)%nat → take 100 class_doc = class_doc))
  ∧ (∀ function_doc,
       FunctionInfo.docstring (item func) = Some function_doc →
       function_doc ≠ [] →
       report_function report func
       = report ++ utf8 "- **" ++ FunctionInfo.name (item func)
         ++ utf8 "()** (" ++ file func ++ utf8 ")" ++ nl
         ++ utf8 "  - " ++ take 100 function_doc ++ utf8 "..." ++ nl
         ++ names_line (utf8 "Аргументы: ") (FunctionInfo.args (item func))
       ∧ ((length function_doc < 100)%nat
          → take 100 function_doc = function_doc))
  ∧ (ClassInfo.docstring (item cls) = Some []
     ∨ ClassInfo.docstring (item cls) = None →
       report_class report cls
       = report ++ utf8 "- **" ++ ClassInfo.name (item cls) ++ utf8 "** ("
         ++ file cls ++ utf8 ")" ++ nl
         ++ names_line (utf8 "Методы: ") (ClassInfo.methods (item cls)))
  ∧ (FunctionInfo.docstring (item func) = Some []
     ∨ FunctionInfo.docstring (item func) = None →
       report_function report func
       = report ++ utf8 "- **" ++ FunctionInfo.name (item func)
         ++ utf8 "()** (" ++ file func ++ utf8 ")" ++ nl
         ++ names_line (utf8 "Аргументы: ") (FunctionInfo.args (item func)))
  ∧ (∀ all_classes report', cls ∈ all_classes →
       ∃ before after,
         report_classes all_classes report'
         = report' ++ before ++ report_class [] cls ++ after)
  ∧ (∀ all_functions report',
       func ∈ take 20 (sorted (λ x, FunctionInfo.name (item x)) all_functions) →
       ∃ before after,
         report_functions all_functions report'
         = report' ++ before ++ report_function [] func ++ after)
  ∧ (∀ all_classes, cls ∈ all_classes →
       ∃ before after,
         classes_section all_classes = before ++ class_entry cls ++ after)
  ∧ (∀ all_functions,
       func ∈ take 20 (sorted (λ x, FunctionInfo.name (item x)) all_functions) →
       ∃ before after,
         functions_section all_functions = before ++ function_entry func ++ after).
Proof.
  assert (Hclasses : ∀ all_classes, cls ∈ all_classes →
    ∃ before after,
      classes_section all_classes = before ++ class_entry cls ++ after).
  { intros all_classes Hin. unfold classes_section.
    destruct (concat_entry_elem_of class_entry cls
                (sorted (λ x, ClassInfo.name (item x)) all_classes))
      as (before & after & Heq); [by rewrite sorted_Permutation|].
    rewrite section_nonempty, Heq by (by intros ->; apply elem_of_nil in Hin).
    exists (utf8 "## Основные классы" ++ nl ++ before), (after ++ nl).
    by rewrite <- !app_assoc. }
  assert (Hfunctions : ∀ all_functions,
    func ∈ take 20 (sorted (λ x, FunctionInfo.name (item x)) all_functions) →
    ∃ before after,
      functions_section all_functions = before ++ function_entry func ++ after).
  { intros all_functions Hin. unfold functions_section.
    destruct (concat_entry_elem_of function_entry func _ Hin)
      as (before & after & Heq).
    rewrite section_nonempty, Heq.
    - exists (utf8 "## Основные функции" ++ nl ++ before), (after ++ nl).
      by rewrite <- !app_assoc.
    - intros ->. by apply elem_of_nil in Hin. }
  split; [|split; [|split; [|split; [|split; [|split; [|split]]]]]].
  - intros class_doc Hc Hcne. split; [|intros ?; apply take_ge; lia].
    rewrite report_class_entry. unfold class_entry, docstring_line.
    rewrite Hc. destruct class_doc; [done|]. by rewrite <- !app_assoc.
  - intros function_doc Hf Hfne. split; [|intros ?; apply take_ge; lia].
    rewrite report_function_entry. unfold function_entry, docstring_line.
    rewrite Hf. destruct function_doc; [done|]. by rewrite <- !app_assoc.
  - intros Hc. rewrite report_class_entry. unfold class_entry, docstring_line.
    by destruct Hc as [-> | ->].
  - intros Hf. rewrite report_function_entry.
    unfold function_entry, docstring_line. by destruct Hf as [-> | ->].
  - intros all_classes report' Hin.
    destruct (Hclasses all_classes Hin) as (before & after & Heq).
    exists before, after.
    rewrite report_classes_section, Heq, (report_class_entry []).
    by rewrite app_nil_l.
  - intros all_functions report' Hin.
    destruct (Hfunctions all_functions Hin) as (before & after & Heq).
    exists before, after.
    rewrite report_functions_section, Heq, (report_function_entry []).
    by rewrite app_nil_l.
  - exact Hclasses.
  - exact Hfunctions.
Qed.

End report.

(** *** The report on the sample project *)

Section report_examples.
Import Sample.

Lemma iteration_order_elements : iteration_order elements.
Proof. by intros s. Qed.

Lemma report_sections_witness :
  let acc :=
    foldl aggregate (Build_Aggregate [] [] ∅) (python_files [many_record]) in
  let functions := sorted (λ x, FunctionInfo.name (item x)) (all_functions acc) in
  let imports := sorted id (elements (all_imports acc)) in
  iteration_order elements
  ∧ length (all_functions acc) = 21%nat
  ∧ size (all_imports acc) = 16%nat
  ∧ classes_section (all_classes acc) = []
  ∧ length (take 20 functions) = 20%nat
  ∧ FunctionInfo.name ∘ item <$> take 3 functions
    = [utf8 "f00"; utf8 "f01"; utf8 "f02"]
  ∧ functions_section (all_functions acc)
    = utf8 "## Основные функции" ++ nl
      ++ concat (function_entry <$> take 20 functions) ++ nl
  ∧ take 15 imports
    = (λ i, utf8 "m" ++ pad2 (N.of_nat i)) <$> seq 0 15
  ∧ imports_section (all_imports acc)
    = utf8 "## Основные зависимости" ++ nl
      ++ concat (import_entry <$> take 15 imports) ++ nl.
Proof.
  intros acc functions imports.
  destruct (report_sections collector [many_record] [] noon elements
              iteration_order_elements)
    as (_ & Hclasses & _ & _ & Hfunctions & _ & _ & Himports & _).
  assert (Hlen : length (all_functions acc) = 21%nat) by (vm_compute; reflexivity).
  assert (Hsize : size (all_imports acc) = 16%nat) by (vm_compute; reflexivity).
  destruct Hfunctions as [Htake Hsection]; [fold acc; rewrite Hlen; lia|].
  split; [exact iteration_order_elements|].
  split; [exact Hlen|]. split; [exact Hsize|].
  split; [apply Hclasses; vm_compute; reflexivity|].
  split; [exact Htake|]. split; [vm_compute; reflexivity|].
  split; [exact Hsection|]. split; [vm_compute; reflexivity|].
  apply Himports. fold acc. intros Hempty.
  rewrite Hempty in Hsize. by rewrite size_empty in Hsize.
Defined.

(** C8, as stated, fails for a docstring that is the empty string: it is
    present in the analysis, and the entry of the class has no docstring
    line and no ellipsis. *)
Lemma empty_docstring_not_rendered :
  ∃ analysis cls,
    analyze_python_file project [utf8 "pkg"; utf8 "quiet.py"]
    = Analysis.ok analysis
    ∧ Analysis.classes analysis = [cls]
    ∧ ClassInfo.docstring cls = Some []
    ∧ report_class [] (tag cls (utf8 "pkg/quiet.py"))
      = utf8 "- **Quiet** (pkg/quiet.py)" ++ nl
    ∧ report_class [] (tag cls (utf8 "pkg/quiet.py"))
      ≠ utf8 "- **Quiet** (pkg/quiet.py)" ++ nl
        ++ utf8 "  - " ++ take 100 [] ++ utf8 "..." ++ nl
    ∧ contains (classes_section [tag cls (utf8 "pkg/quiet.py")]) (utf8 "...")
      = false.
Proof.
  eexists _, _. split; [vm_compute; reflexivity|].
  split; [reflexivity|]. split; [reflexivity|].
  split; [vm_compute; reflexivity|]. split; [vm_compute; discriminate|].
  vm_compute. reflexivity.
Qed.

Lemma docstring_rendered_witness :
  let shape :=
    tag (ClassInfo.mk (utf8 "Shape") [utf8 "area"] (Some (utf8 "A shape.")) 2)
      (utf8 "pkg/shapes.py") in
  let unit :=
    tag (FunctionInfo.mk (utf8 "unit") [utf8 "scale"; utf8 "origin"]
           (Some (utf8 "The unit shape.")) 6)
      (utf8 "pkg/shapes.py") in
  let quiet :=
    tag (ClassInfo.mk (utf8 "Quiet") [utf8 "hush"] (Some []) 1)
      (utf8 "pkg/quiet.py") in
  let hush :=
    tag (FunctionInfo.mk (utf8 "hush") [utf8 "self"] (Some []) 3)
      (utf8 "pkg/quiet.py") in
  report_class [] shape
  = utf8 "- **Shape** (pkg/shapes.py)" ++ nl
    ++ utf8 "  - A shape...." ++ nl
    ++ utf8 "  - Методы: area" ++ nl
  ∧ report_function [] unit
    = utf8 "- **unit()** (pkg/shapes.py)" ++ nl
      ++ utf8 "  - The unit shape...." ++ nl
      ++ utf8 "  - Аргументы: scale, origin" ++ nl
  ∧ report_class [] quiet
    = utf8 "- **Quiet** (pkg/quiet.py)" ++ nl
      ++ utf8 "  - Методы: hush" ++ nl
  ∧ report_function [] hush
    = utf8 "- **hush()** (pkg/quiet.py)" ++ nl
      ++ utf8 "  - Аргументы: self" ++ nl.
Proof.
  intros shape unit quiet hush.
  destruct (docstring_rendered [] shape unit) as (Hclass & Hfunction & _).
  destruct (docstring_rendered [] quiet hush) as (_ & _ & Hquiet & Hhush & _).
  assert (Hshape : utf8 "A shape." ≠ []) by (vm_compute; discriminate).
  assert (Hunit : utf8 "The unit shape." ≠ []) by (vm_compute; discriminate).
  destruct (Hclass (utf8 "A shape.") eq_refl Hshape) as [Hc _].
  destruct (Hfunction (utf8 "The unit shape.") eq_refl Hunit) as [Hf _].
  split; [rewrite Hc; vm_compute; reflexivity|].
  split; [rewrite Hf; vm_compute; reflexivity|].
  split.
  - rewrite Hquiet by (by left). vm_compute. reflexivity.
  - rewrite Hhush by (by left). vm_compute. reflexivity.
Defined.

End report_examples.

(** ** The consolidator *)

Section consolidation.
Context `{PyLib}.
Variable self : ProjectCollector.

Lemma banner_names_fmap {A} (f : A → str) label consolidated (l : list A) :
  match l with
  | _ :: _ => consolidated ++ label ++ join (utf8 ", ") (f <$> l) ++ nl
  | [] => consolidated
  end = consolidated ++ banner_names label (f <$> l).
Proof. destruct l; simpl; [by rewrite app_nil_r|done]. Qed.

Lemma consolidate_file_large fs max_file_size consolidated file_info :
  max_file_size < FileRecord.size file_info →
  consolidate_file fs max_file_size consolidated file_info
  = consolidated
    ++ placeholder_banner (FileRecord.path file_info) (FileRecord.size file_info).
Proof.
  intros Hsize. unfold consolidate_file, placeholder_banner.
  by rewrite (proj2 (N.ltb_lt _ _) Hsize).
Qed.

Lemma consolidate_file_read fs max_file_size consolidated file_info content :
  FileRecord.size file_info ≤ max_file_size →
  read_text fs (path_parts (FileRecord.path file_info)) = Ok content →
  consolidate_file fs max_file_size consolidated file_info
  = consolidated ++ file_banner file_info ++ content ++ nl ++ nl.
Proof.
  intros Hsize Hread. unfold consolidate_file, file_banner.
  rewrite (proj2 (N.ltb_ge _ _) Hsize), Hread.
  rewrite !banner_names_fmap. by rewrite <- !app_assoc.
Qed.

Lemma consolidate_file_unreadable fs max_file_size consolidated file_info e :
  FileRecord.size file_info ≤ max_file_size →
  read_text fs (path_parts (FileRecord.path file_info)) = Err e →
  consolidate_file fs max_file_size consolidated file_info
  = consolidated ++ error_banner (FileRecord.path file_info) e.
Proof.
  intros Hsize Hread. unfold consolidate_file, error_banner.
  by rewrite (proj2 (N.ltb_ge _ _) Hsize), Hread.
Qed.

(** What a file adds does not depend on the text before it. *)
Lemma consolidate_file_app fs max_file_size consolidated file_info :
  consolidate_file fs max_file_size consolidated file_info
  = consolidated ++ consolidate_file fs max_file_size [] file_info.
Proof.
  destruct (N.lt_ge_cases max_file_size (FileRecord.size file_info)) as [Hlt|Hge].
  - by rewrite !consolidate_file_large.
  - destruct (read_text fs (path_parts (FileRecord.path file_info))) as [c|e] eqn:Hr.
    + by rewrite !(consolidate_file_read _ _ _ _ c).
    + by rewrite !(consolidate_file_unreadable _ _ _ _ e).
Qed.

(** C7. A file whose size is above the threshold adds the placeholder
    banner with its path and size, whatever the files contain; a file that
    is not above it adds its banner and then the text read from it, as it
    is; a file that cannot be read adds the banner with the message. The
    consolidated text is the head followed by what each Python file adds,
    in order, so a failure on one file leaves the others as they are. *)
Theorem consolidation_of_file fs max_file_size consolidated file_info :
  (max_file_size < FileRecord.size file_info →
     ∀ fs',
       consolidate_file fs' max_file_size consolidated file_info
       = consolidated
         ++ placeholder_banner (FileRecord.path file_info)
              (FileRecord.size file_info))
  ∧ (FileRecord.size file_info ≤ max_file_size →
       ∀ content,
         read_text fs (path_parts (FileRecord.path file_info)) = Ok content →
         consolidate_file fs max_file_size consolidated file_info
         = consolidated ++ file_banner file_info ++ content ++ nl ++ nl)
  ∧ (FileRecord.size file_info ≤ max_file_size →
       ∀ e,
         read_text fs (path_parts (FileRecord.path file_info)) = Err e →
         consolidate_file fs max_file_size consolidated file_info
         = consolidated ++ error_banner (FileRecord.path file_info) e)
  ∧ (∀ now files_info,
       collect_files self fs None = Ok files_info →
       create_consolidated_code self fs now max_file_size
       = Ok (consolidated_head now (length (python_files files_info))
             ++ concat (consolidate_file fs max_file_size []
                          <$> python_files files_info))).
Proof.
  split; [intros ? ?; by apply consolidate_file_large|].
  split; [intros ? ? ?; by apply consolidate_file_read|].
  split; [intros ? ? ?; by apply consolidate_file_unreadable|].
  intros now files_info Hfiles. unfold create_consolidated_code.
  rewrite Hfiles. cbn [mbind result_bind]. f_equal.
  apply foldl_entries. intros. apply consolidate_file_app.
Qed.

End consolidation.

(** *** The consolidator on the sample project *)

Section consolidation_examples.
Import Sample.

Lemma consolidation_of_file_witness :
  default_max_file_size < FileRecord.size big_record
  ∧ consolidate_file [] default_max_file_size [] big_record
    = utf8 "# === big.py === [ФАЙЛ СЛИШКОМ БОЛЬШОЙ: 50001 байт]" ++ nl ++ nl
  ∧ FileRecord.size edge_record ≤ default_max_file_size
  ∧ consolidate_file project default_max_file_size [] edge_record
    = rule ++ utf8 "# ФАЙЛ: edge.py" ++ nl
      ++ utf8 "# РАЗМЕР: 50000 байт" ++ nl ++ rule ++ nl
      ++ os_text ++ nl ++ nl
  ∧ consolidate_file project default_max_file_size [] binary_record
    = utf8 "# === binary.py === [ОШИБКА ЧТЕНИЯ: " ++ decode_error ++ utf8 "]"
      ++ nl ++ nl.
Proof.
  destruct (consolidation_of_file collector project default_max_file_size []
              big_record) as (Hbig & _).
  destruct (consolidation_of_file collector project default_max_file_size []
              edge_record) as (_ & Hedge & _).
  destruct (consolidation_of_file collector project default_max_file_size []
              binary_record) as (_ & _ & Hbinary & _).
  assert (Hlt : default_max_file_size < FileRecord.size big_record)
    by (vm_compute; reflexivity).
  assert (Hle : FileRecord.size edge_record ≤ default_max_file_size)
    by (vm_compute; discriminate).
  split; [exact Hlt|]. split; [rewrite (Hbig Hlt []); vm_compute; reflexivity|].
  split; [exact Hle|]. split.
  - rewrite (Hedge Hle os_text) by (vm_compute; reflexivity).
    vm_compute. reflexivity.
  - rewrite (Hbinary ltac:(vm_compute; discriminate) decode_error)
      by (vm_compute; reflexivity).
    vm_compute. reflexivity.
Defined.

End consolidation_examples.

(** ** The file enumerator *)

Lemma entry_ind' (P : entry → Prop) :
  (∀ name st_size text, P (File name st_size text)) →
  (∀ d st_size sub, Forall P sub → P (Dir d st_size sub)) →
  ∀ e, P e.
Proof.
  intros Hfile Hdir. fix IH 1. intros [name st_size text|d st_size sub].
  - apply Hfile.
  - apply Hdir. induction sub as [|e sub IHsub]; constructor; [apply IH|done].
Qed.

Lemma wf_entry_Dir d st_size sub :
  wf_entry (Dir d st_size sub) ↔ valid_name d ∧ wf_dir sub.
Proof.
  unfold wf_dir. simpl.
  assert (foldr (λ e' P, wf_entry e' ∧ P) True sub ↔ Forall wf_entry sub) as ->.
  { induction sub as [|e sub IH]; simpl; [by split; [constructor|]|].
    rewrite Forall_cons, IH. done. }
  done.
Qed.

Lemma wf_dir_elem_of es d st_size sub :
  wf_dir es → Dir d st_size sub ∈ es → valid_name d ∧ wf_dir sub.
Proof.
  intros [_ Hall] Hin. rewrite Forall_forall in Hall.
  by apply (wf_entry_Dir d st_size sub), Hall.
Qed.

Lemma find_entry_elem_of es e :
  NoDup (entry_name <$> es) → e ∈ es → find_entry (entry_name e) es = Some e.
Proof.
  induction es as [|e' es IH]; intros Hnd Hin; [by apply elem_of_nil in Hin|].
  simpl in *. apply NoDup_cons in Hnd as [Hnotin Hnd].
  apply elem_of_cons in Hin as [->|Hin]; [by rewrite decide_True|].
  rewrite decide_False; [by apply IH|].
  intros Heq. apply Hnotin. rewrite Heq. by apply list_elem_of_fmap_2.
Qed.

Lemma file_in_resolve es dirs name :
  wf_dir es → file_in es dirs name →
  ∃ st_size text, resolve es (dirs ++ [name]) = Some (File name st_size text).
Proof.
  intros Hwf Hfile. induction Hfile as [es name st_size text Hin
                                       |es d st_size sub dirs name Hin Hfile IH].
  - exists st_size, text.
    pose proof (find_entry_elem_of es _ (proj1 Hwf) Hin) as Hfind.
    simpl in *. by rewrite Hfind.
  - destruct (wf_dir_elem_of _ _ _ _ Hwf Hin) as [_ Hsub].
    destruct (IH Hsub) as (sz & text & Hres). exists sz, text.
    pose proof (find_entry_elem_of es _ (proj1 Hwf) Hin) as Hfind.
    simpl in *. rewrite Hfind.
    destruct (dirs ++ [name]) eqn:Heq; [by destruct dirs|done].
Qed.

Lemma walked_cons root dirs files items :
  walked ((root, dirs, files) :: items)
  = ((λ file, (root, file)) <$> files) ++ walked items.
Proof. done. Qed.

Lemma walked_flat_map {A} (f : A → list walk_item) l :
  walked (flat_map f l) = flat_map (λ x, walked (f x)) l.
Proof.
  induction l as [|x l IH]; simpl; [done|].
  unfold walked in *. rewrite flat_map_app. f_equal. exact IH.
Qed.

Lemma walked_os_walk keep top es :
  walked (os_walk keep top es)
  = ((λ file, (top, file)) <$> filenames es)
    ++ flat_map (λ e, walked (walk_entry keep top e)) es.
Proof. unfold os_walk. by rewrite walked_cons, walked_flat_map. Qed.

Lemma walk_entry_Dir keep top d st_size sub :
  walk_entry keep top (Dir d st_size sub)
  = if keep d then os_walk keep (top ++ [d]) sub else [].
Proof. done. Qed.

Lemma elem_of_filenames es name :
  name ∈ filenames es ↔ ∃ st_size text, File name st_size text ∈ es.
Proof.
  unfold filenames. rewrite list_elem_of_fmap. split.
  - intros (e & -> & [Hfile He]%list_elem_of_filter).
    destruct e as [name' st_size text|]; [|done]. by exists st_size, text.
  - intros (st_size & text & Hin). exists (File name st_size text).
    split; [done|]. by apply list_elem_of_filter.
Qed.

(** The files listed by the walk are the files below directories that are
    all kept. *)
Definition walked_below (keep : str → bool) (e : entry) : Prop :=
  ∀ top root name,
    (root, name) ∈ walked (walk_entry keep top e)
    ↔ ∃ d st_size sub dirs,
        e = Dir d st_size sub ∧ keep d = true ∧ root = top ++ d :: dirs
        ∧ file_in sub dirs name ∧ Forall (λ d, keep d = true) dirs.

Lemma walked_spec_step keep es :
  Forall (walked_below keep) es →
  ∀ top root name,
    (root, name) ∈ walked (os_walk keep top es)
    ↔ ∃ dirs, root = top ++ dirs ∧ file_in es dirs name
              ∧ Forall (λ d, keep d = true) dirs.
Proof.
  intros Hes top root name. rewrite Forall_forall in Hes.
  rewrite walked_os_walk, elem_of_app, list_elem_of_fmap, elem_of_flat_map.
  split.
  - intros [(file & [= -> ->] & Hfile)|(e & He & Hin)].
    + apply elem_of_filenames in Hfile as (st_size & text & Hfile).
      exists []. rewrite app_nil_r. split; [done|]. split; [|constructor].
      by econstructor.
    + apply (Hes e He) in Hin as (d & st_size & sub & dirs & -> & Hd & -> & Hf & Hk).
      exists (d :: dirs). split; [done|]. split; [by econstructor|].
      by constructor.
  - intros (dirs & -> & Hfile & Hkeep). inversion Hfile; subst.
    + left. exists name. rewrite app_nil_r. split; [done|].
      apply elem_of_filenames. by repeat eexists.
    + right. eexists. split; [done|]. apply (Hes _ H).
      apply Forall_cons in Hkeep as [Hd Hkeep]. by repeat eexists.
Qed.

Lemma walked_entry_spec keep e : walked_below keep e.
Proof.
  induction e as [name' st_size text|d st_size sub IH] using entry_ind'.
  - intros top root name. split; [by intros ?%elem_of_nil|].
    by intros (?&?&?&?&?&_).
  - pose proof (walked_spec_step _ _ IH) as IHsub. clear IH.
    intros top root name. rewrite walk_entry_Dir. split.
    + destruct (keep d) eqn:Hd; [|by intros ?%elem_of_nil].
      intros (dirs & -> & Hfile & Hkeep)%IHsub.
      exists d, st_size, sub, dirs. by rewrite <- app_assoc.
    + intros (d' & st_size' & sub' & dirs & [= <- <- <-] & Hd & -> & Hfile & Hkeep).
      rewrite Hd. apply IHsub. exists dirs. by rewrite <- app_assoc.
Qed.

Lemma walked_spec keep es top root name :
  (root, name) ∈ walked (os_walk keep top es)
  ↔ ∃ dirs, root = top ++ dirs ∧ file_in es dirs name
            ∧ Forall (λ d, keep d = true) dirs.
Proof.
  apply walked_spec_step, Forall_forall. intros e _. apply walked_entry_spec.
Qed.

(** No file is listed twice. *)
Lemma filenames_NoDup es : NoDup (entry_name <$> es) → NoDup (filenames es).
Proof.
  unfold filenames. induction es as [|e es IH]; simpl; [constructor|].
  intros [Hnotin Hnd]%NoDup_cons. rewrite filter_cons.
  destruct (decide (is_dir e = false)); [|by apply IH]. simpl.
  apply NoDup_cons. split; [|by apply IH].
  intros (e' & Heq & [_ Hin]%list_elem_of_filter)%list_elem_of_fmap.
  apply Hnotin. rewrite Heq. by apply list_elem_of_fmap_2.
Qed.

Lemma walked_NoDup_step keep es :
  Forall (λ e, wf_entry e → ∀ top, NoDup (walked (walk_entry keep top e))) es →
  wf_dir es → ∀ top, NoDup (walked (os_walk keep top es)).
Proof.
  intros Hes [Hnames Hwf] top. rewrite walked_os_walk. apply NoDup_app.
  split; [|split].
  - apply NoDup_fmap_2; [by intros ?? [= ?]|by apply filenames_NoDup].
  - intros [root name] (file & [= -> ->] & _)%list_elem_of_fmap
      (e & _ & Hin)%elem_of_flat_map.
    apply walked_entry_spec in Hin as (d & _ & _ & dirs & _ & _ & Hroot & _).
    apply (f_equal length) in Hroot. rewrite length_app in Hroot.
    simpl in Hroot. lia.
  - induction es as [|e es IH]; simpl; [constructor|].
    apply Forall_cons in Hes as [He Hes]. apply Forall_cons in Hwf as [Hwfe Hwf].
    simpl in Hnames. apply NoDup_cons in Hnames as [Hnotin Hnames].
    apply NoDup_app. split; [by apply He|]. split; [|by apply IH].
    intros [root name] Hin (e' & He' & Hin')%elem_of_flat_map.
    apply walked_entry_spec in Hin as (d & ? & ? & dirs & -> & _ & Hroot & _).
    apply walked_entry_spec in Hin' as (d' & ? & ? & dirs' & -> & _ & Hroot' & _).
    rewrite Hroot in Hroot'. apply app_inv_head in Hroot'. injection Hroot' as <- _.
    apply Hnotin. by apply (list_elem_of_fmap_2 entry_name) in He'.
Qed.

Lemma walked_NoDup keep es top :
  wf_dir es → NoDup (walked (os_walk keep top es)).
Proof.
  intros Hwf. apply walked_NoDup_step; [|done]. apply Forall_forall.
  intros e _. clear. induction e as [|d st_size sub IH] using entry_ind'.
  - intros _ top. constructor.
  - intros [_ Hsub]%wf_entry_Dir top. rewrite walk_entry_Dir.
    destruct (keep d); [|constructor]. by apply walked_NoDup_step.
Qed.

(** The directories reached by the walk are below kept directories only. *)
Lemma os_walk_roots keep es : ∀ top root dirs files,
  (root, dirs, files) ∈ os_walk keep top es →
  ∃ below, root = top ++ below ∧ Forall (λ d, keep d = true) below.
Proof.
  assert (Hstep : ∀ es,
    Forall (λ e, ∀ top root dirs files,
      (root, dirs, files) ∈ walk_entry keep top e →
      ∃ below, root = top ++ below ∧ Forall (λ d, keep d = true) below) es →
    ∀ top root dirs files,
      (root, dirs, files) ∈ os_walk keep top es →
      ∃ below, root = top ++ below ∧ Forall (λ d, keep d = true) below).
  { clear es. intros es Hes top root dirs files. rewrite Forall_forall in Hes.
    unfold os_walk. rewrite elem_of_cons, elem_of_flat_map.
    intros [[= -> _ _]|(e & He & Hin)]; [|by eapply Hes].
    exists []. by rewrite app_nil_r. }
  apply Hstep, Forall_forall. intros e _. clear es.
  induction e as [|d st_size sub IH] using entry_ind'.
  - by intros top root dirs files ?%elem_of_nil.
  - intros top root dirs files. rewrite walk_entry_Dir.
    destruct (keep d) eqn:Hd; [|by intros ?%elem_of_nil].
    intros (below & -> & Hbelow)%(Hstep _ IH).
    exists (d :: below). rewrite <- app_assoc. split; [done|by constructor].
Qed.

(** *** Paths *)

Lemma app_sep_inj (a b x y : str) :
  sep ∉ a → sep ∉ b → a ++ sep :: x = b ++ sep :: y → a = b ∧ x = y.
Proof.
  revert b. induction a as [|c a IH]; intros [|c' b] Ha Hb Heq; simpl in *.
  - by injection Heq as ->.
  - injection Heq as <- _. exfalso. apply Hb, list_elem_of_here.
  - injection Heq as -> _. exfalso. apply Ha, list_elem_of_here.
  - injection Heq as -> Heq.
    destruct (IH b) as [-> ->]; try done.
    + intros ?. apply Ha. by apply list_elem_of_further.
    + intros ?. apply Hb. by apply list_elem_of_further.
Qed.

Lemma path_str_cons a l :
  l ≠ [] → path_str (a :: l) = a ++ sep :: path_str l.
Proof. by destruct l. Qed.

Lemma path_str_inj l1 l2 :
  Forall valid_name l1 → Forall valid_name l2 → l1 ≠ [] → l2 ≠ [] →
  path_str l1 = path_str l2 → l1 = l2.
Proof.
  revert l2. induction l1 as [|a l1 IH]; intros [|b l2] H1 H2 Hne1 Hne2 Heq;
    try done.
  apply Forall_cons in H1 as [[_ Ha] H1]. apply Forall_cons in H2 as [[_ Hb] H2].
  destruct l1 as [|a' l1], l2 as [|b' l2].
  - unfold path_str in Heq. simpl in Heq. by rewrite Heq.
  - rewrite (path_str_cons b) in Heq by done. unfold path_str at 1 in Heq.
    simpl in Heq. subst a.
    exfalso. apply Ha, elem_of_app. right. apply list_elem_of_here.
  - rewrite (path_str_cons a) in Heq by done. unfold path_str at 2 in Heq.
    simpl in Heq. subst b.
    exfalso. apply Hb, elem_of_app. right. apply list_elem_of_here.
  - rewrite (path_str_cons a), (path_str_cons b) in Heq by done.
    apply app_sep_inj in Heq as [-> Heq]; try done.
    f_equal. by apply IH.
Qed.

Lemma file_in_valid es dirs name :
  wf_dir es → file_in es dirs name → Forall valid_name (dirs ++ [name]).
Proof.
  intros Hwf Hfile. induction Hfile as [es name st_size text Hin
                                       |es d st_size sub dirs name Hin Hfile IH].
  - destruct Hwf as [_ Hall]. rewrite Forall_forall in Hall.
    apply Hall in Hin as [Hname _]. simpl. by constructor.
  - destruct (wf_dir_elem_of _ _ _ _ Hwf Hin) as [Hd Hsub].
    simpl. constructor; [done|by apply IH].
Qed.

(** *** The enumeration *)

Section enumeration.
Context `{PyLib}.
Variable self : ProjectCollector.

Lemma collect_files_walked fs extensions :
  collect_files self fs extensions
  = for_each (λ files_info '(root, file),
                collect_file fs (list_or extensions default_extensions) root
                  files_info file)
      (walked (os_walk (keep_dir self) [] fs)) [].
Proof.
  unfold collect_files. generalize (@nil FileRecord.t) as acc.
  induction (os_walk (keep_dir self) [] fs) as [|[[root dirs] files] items IH];
    intros acc; [done|].
  rewrite walked_cons, for_each_app. simpl. rewrite for_each_fmap.
  destruct (for_each _ files acc); simpl; [apply IH|done].
Qed.

Lemma collect_file_stat fs extensions root files_info file size :
  stat_size fs (root ++ [file]) = Ok size →
  collect_file fs extensions root files_info file
  = Ok (files_info ++ file_records fs extensions [(root, file)]).
Proof.
  intros Hsize. unfold collect_file, file_records. simpl. rewrite Hsize.
  case_bool_decide; simpl; by rewrite ?app_nil_r.
Qed.

Lemma file_records_cons fs extensions root file files :
  file_records fs extensions ((root, file) :: files)
  = file_records fs extensions [(root, file)] ++ file_records fs extensions files.
Proof. unfold file_records. simpl. by rewrite app_nil_r. Qed.

Lemma for_each_collect_file fs extensions files acc :
  Forall (λ '(root, file), ∃ size, stat_size fs (root ++ [file]) = Ok size) files →
  for_each (λ files_info '(root, file),
              collect_file fs extensions root files_info file) files acc
  = Ok (acc ++ file_records fs extensions files).
Proof.
  revert acc. induction files as [|[root file] files IH]; intros acc Hstat.
  { simpl. by rewrite app_nil_r. }
  apply Forall_cons in Hstat as [[size Hsize] Hstat].
  rewrite file_records_cons. cbn [for_each].
  rewrite (collect_file_stat _ _ _ _ _ _ Hsize). cbn [mbind result_bind].
  rewrite IH by done. by rewrite <- app_assoc.
Qed.

Lemma walked_stat_size fs root file :
  wf_dir fs → (root, file) ∈ walked (os_walk (keep_dir self) [] fs) →
  ∃ size, stat_size fs (root ++ [file]) = Ok size.
Proof.
  intros Hwf (dirs & -> & Hfile & _)%walked_spec. simpl.
  destruct (file_in_resolve _ _ _ Hwf Hfile) as (size & text & Hres).
  exists size. unfold stat_size. by rewrite Hres.
Qed.

Lemma collect_files_records fs extensions :
  wf_dir fs →
  collect_files self fs extensions
  = Ok (file_records fs (list_or extensions default_extensions)
          (walked (os_walk (keep_dir self) [] fs))).
Proof.
  intros Hwf. rewrite collect_files_walked, for_each_collect_file; [done|].
  apply Forall_forall. intros [root file]. by apply walked_stat_size.
Qed.

Lemma elem_of_file_records fs extensions files r :
  r ∈ file_records fs extensions files
  ↔ ∃ root file size,
      (root, file) ∈ files ∧ suffix file ∈ extensions
      ∧ stat_size fs (root ++ [file]) = Ok size
      ∧ r = file_record fs root file size.
Proof.
  unfold file_records. rewrite elem_of_flat_map. split.
  - intros ([root file] & Hin & Hr). case_bool_decide; [|by apply elem_of_nil in Hr].
    destruct (stat_size fs (root ++ [file])) as [size|] eqn:Hsize;
      [|by apply elem_of_nil in Hr].
    apply list_elem_of_singleton in Hr. by exists root, file, size.
  - intros (root & file & size & Hin & Hext & Hsize & ->).
    exists (root, file). split; [done|].
    rewrite bool_decide_true, Hsize by done. apply list_elem_of_here.
Qed.

Lemma keep_dir_true d : keep_dir self d = true ↔ d ∉ exclude_dirs self.
Proof. unfold keep_dir. apply bool_decide_eq_true. Qed.

(** A listed file has one record when its suffix is allowed. *)
Lemma file_records_count fs extensions files root file :
  NoDup files →
  (∀ root' file', (root', file') ∈ files →
     path_str (root' ++ [file']) = path_str (root ++ [file]) →
     (root', file') = (root, file)) →
  (root, file) ∈ files → suffix file ∈ extensions →
  (∃ size, stat_size fs (root ++ [file]) = Ok size) →
  length (filter (λ r, FileRecord.path r = path_str (root ++ [file]))
            (file_records fs extensions files)) = 1%nat.
Proof.
  intros Hnd Hinj Hin Hext [size Hsize].
  assert (Hnone : ∀ files',
    (root, file) ∉ files' → (∀ p, p ∈ files' → p ∈ files) →
    filter (λ r, FileRecord.path r = path_str (root ++ [file]))
      (file_records fs extensions files') = []).
  { intros files' Hnotin Hsub. apply filter_none.
    intros r (root' & file' & size' & Hin' & _ & _ & ->)%elem_of_file_records Hpath.
    simpl in Hpath. apply Hinj in Hpath; [|by apply Hsub]. by rewrite Hpath in Hin'. }
  induction files as [|[root' file'] files IH]; [by apply elem_of_nil in Hin|].
  apply NoDup_cons in Hnd as [Hnotin Hnd].
  rewrite file_records_cons.
  rewrite filter_app, length_app.
  apply elem_of_cons in Hin as [[= <- <-]|Hin].
  - rewrite (Hnone files) by (done || (intros; by apply list_elem_of_further)).
    unfold file_records. simpl. rewrite bool_decide_true, Hsize by done. simpl.
    rewrite filter_cons_True by done. done.
  - rewrite (Hnone [(root', file')]).
    + simpl. apply IH; try done.
      * intros ????. apply Hinj; [by apply list_elem_of_further|done].
      * intros files' ? Hsub. apply Hnone; [done|].
        intros ??. by apply list_elem_of_further, Hsub.
    + by intros [= -> ->]%list_elem_of_singleton.
    + intros ? ->%list_elem_of_singleton. apply list_elem_of_here.
Qed.
Lemma Forall_keep_dir dirs :
  Forall (λ d, keep_dir self d = true) dirs
  ↔ Forall (λ d, d ∉ exclude_dirs self) dirs.
Proof. apply Forall_proper; [|done]. intros d. apply keep_dir_true. Qed.

(** C5. On a snapshot as a file system gives it, the enumeration succeeds
    and has exactly one record for every file whose suffix is in the
    allow-list and that is below no excluded directory, and no record for a
    file below an excluded directory; every record is the record of such a
    file, and the walk reaches no directory below an excluded one. *)
Theorem enumeration_exact fs extensions :
  wf_dir fs →
  ∃ files_info,
    collect_files self fs extensions = Ok files_info
    ∧ (∀ dirs name,
         file_in fs dirs name →
         suffix name ∈ list_or extensions default_extensions →
         Forall (λ d, d ∉ exclude_dirs self) dirs →
         length (filter (λ r, FileRecord.path r = path_str (dirs ++ [name]))
                   files_info) = 1%nat)
    ∧ (∀ dirs name,
         file_in fs dirs name →
         Exists (λ d, d ∈ exclude_dirs self) dirs →
         path_str (dirs ++ [name]) ∉ FileRecord.path <$> files_info)
    ∧ (∀ r, r ∈ files_info →
         ∃ dirs name,
           file_in fs dirs name
           ∧ Forall (λ d, d ∉ exclude_dirs self) dirs
           ∧ suffix name ∈ list_or extensions default_extensions
           ∧ FileRecord.path r = path_str (dirs ++ [name])
           ∧ FileRecord.extension r = suffix name)
    ∧ (∀ root dirs files,
         (root, dirs, files) ∈ os_walk (keep_dir self) [] fs →
         Forall (λ d, d ∉ exclude_dirs self) root).
Proof.
  intros Hwf. eexists. split; [by apply collect_files_records|].
  set (allowed := list_or extensions default_extensions).
  set (listed := walked (os_walk (keep_dir self) [] fs)).
  assert (Hsound : ∀ r, r ∈ file_records fs allowed listed →
    ∃ dirs name,
      file_in fs dirs name
      ∧ Forall (λ d, d ∉ exclude_dirs self) dirs
      ∧ suffix name ∈ allowed
      ∧ FileRecord.path r = path_str (dirs ++ [name])
      ∧ FileRecord.extension r = suffix name).
  { intros r (root & file & size & Hin & Hext & _ & ->)%elem_of_file_records.
    apply walked_spec in Hin as (dirs & -> & Hfile & Hkeep). simpl in *.
    exists dirs, file. by rewrite <- Forall_keep_dir. }
  split; [|split; [|split; [done|]]].
  - intros dirs name Hfile Hext Hkeep.
    assert (Hin : (dirs, name) ∈ listed).
    { apply walked_spec. exists dirs. by rewrite Forall_keep_dir. }
    apply file_records_count; try done.
    + by apply walked_NoDup.
    + intros root' file' (dirs' & -> & Hfile' & _)%walked_spec Hpath. simpl in *.
      apply path_str_inj in Hpath.
      * by apply app_inj_tail in Hpath as [-> ->].
      * by eapply file_in_valid.
      * by eapply file_in_valid.
      * by destruct dirs'.
      * by destruct dirs.
    + by apply walked_stat_size.
  - intros dirs name Hfile Hex (r & Hpath & Hr)%list_elem_of_fmap.
    destruct (Hsound r Hr) as (dirs' & name' & Hfile' & Hkeep & _ & Hpath' & _).
    rewrite Hpath' in Hpath. apply path_str_inj in Hpath.
    + apply app_inj_tail in Hpath as [-> ->].
      apply Exists_exists in Hex as (d & Hd & Hexcluded).
      rewrite Forall_forall in Hkeep. by apply (Hkeep d).
    + by eapply file_in_valid.
    + by eapply file_in_valid.
    + by destruct dirs.
    + by destruct dirs'.
  - intros root dirs files (below & -> & Hkeep)%os_walk_roots.
    by apply Forall_keep_dir.
Qed.

End enumeration.

(** *** The enumeration of the sample project *)

Section enumeration_examples.
Import Sample.

Ltac by_computation := apply (bool_decide_unpack _); vm_compute; exact I.

Lemma project_wf : wf_dir project.
Proof.
  split; [by_computation|].
  repeat (constructor || split || by_computation).
Qed.

(** [notes.rst] has no allowed suffix; [.git] and [__pycache__] are
    excluded. *)
Example project_paths :
  ∃ files_info,
    collect_files collector project None = Ok files_info
    ∧ FileRecord.path <$> files_info
      = (utf8 <$> ["os_use.py"; "broken.py"; "binary.py"; "big.py"; "edge.py";
                   "README.md"; "pkg/__init__.py"; "pkg/shapes.py";
                   "pkg/quiet.py"]%string).
Proof. eexists. split; vm_compute; reflexivity. Qed.

(** With an allow-list given, it is this list that counts, its first
    element included: [notes.rst] is recorded, and no [.py] file is. *)
Example project_paths_given :
  ∃ files_info,
    collect_files collector project (Some [utf8 ".rst"; utf8 ".md"])
    = Ok files_info
    ∧ FileRecord.path <$> files_info = [utf8 "README.md"; utf8 "notes.rst"].
Proof. eexists. split; vm_compute; reflexivity. Qed.

Lemma enumeration_exact_witness :
  wf_dir project
  ∧ (∃ files_info,
       collect_files collector project None = Ok files_info
       ∧ (length (filter (λ r, FileRecord.path r = utf8 "pkg/shapes.py")
                    files_info) = 1%nat)
       ∧ (utf8 ".git/hook.py" ∉ FileRecord.path <$> files_info)
       ∧ utf8 "pkg/__pycache__/shapes.py" ∉ (FileRecord.path <$> files_info))
  ∧ ∃ files_info,
      collect_files collector project (Some [utf8 ".rst"]) = Ok files_info
      ∧ (length (filter (λ r, FileRecord.path r = utf8 "notes.rst")
                   files_info) = 1%nat)
      ∧ ∀ r, r ∈ files_info → FileRecord.extension r = utf8 ".rst".
Proof.
  split; [exact project_wf|]. split.
  - destruct (enumeration_exact collector project None project_wf)
      as (files_info & Hfiles & Hone & Hnone & _).
    exists files_info. split; [exact Hfiles|].
    split; [|split].
    + apply (Hone [utf8 "pkg"] (utf8 "shapes.py")).
      * eapply file_in_below; [|eapply file_in_here];
          repeat (apply list_elem_of_here || apply list_elem_of_further).
      * by_computation.
      * repeat constructor; by_computation.
    + apply (Hnone [utf8 ".git"] (utf8 "hook.py")).
      * eapply file_in_below; [|eapply file_in_here];
          repeat (apply list_elem_of_here || apply list_elem_of_further).
      * apply Exists_cons_hd. by_computation.
    + apply (Hnone [utf8 "pkg"; utf8 "__pycache__"] (utf8 "shapes.py")).
      * eapply file_in_below; [|eapply file_in_below; [|eapply file_in_here]];
          repeat (apply list_elem_of_here || apply list_elem_of_further).
      * apply Exists_cons_tl, Exists_cons_hd. by_computation.
  - destruct (enumeration_exact collector project (Some [utf8 ".rst"])
                project_wf)
      as (files_info & Hfiles & Hone & _ & Hsound & _).
    exists files_info. split; [exact Hfiles|]. split.
    + apply (Hone [] (utf8 "notes.rst")).
      * eapply file_in_here;
          repeat (apply list_elem_of_here || apply list_elem_of_further).
      * by_computation.
      * constructor.
    + intros r Hr.
      destruct (Hsound r Hr) as (dirs & name & _ & _ & Hext & _ & ->).
      cbn [list_or] in Hext. by apply list_elem_of_singleton in Hext.
Defined.

End enumeration_examples.

(** ** Runs of the pipeline *)

Lemma utf8_digits d : Forall is_digit (utf8 (NilEmpty.string_of_uint d)).
Proof.
  unfold utf8. induction d; simpl; try constructor; try done;
    unfold is_digit; lia.
Qed.

Lemma of_N_digits n : Forall is_digit (of_N n).
Proof.
  unfold of_N, NilZero.string_of_uint.
  destruct (N.to_uint n) eqn:Hn; try apply utf8_digits.
  repeat constructor; unfold is_digit; simpl; lia.
Qed.

Lemma pad2_digits n : Forall is_digit (pad2 n).
Proof.
  unfold pad2. destruct (n <? 10); [|apply of_N_digits].
  constructor; [unfold is_digit; lia|apply of_N_digits].
Qed.

Lemma digits_no_newline s : Forall is_digit s → 10 ∉ s.
Proof.
  intros Hs Hin. rewrite Forall_forall in Hs. apply Hs in Hin.
  unfold is_digit in Hin. lia.
Qed.

Lemma strftime_no_newline now : 10 ∉ strftime now.
Proof.
  unfold strftime. rewrite !elem_of_app.
  pose proof (digits_no_newline _ (of_N_digits (year now))).
  pose proof (digits_no_newline _ (pad2_digits (month now))).
  pose proof (digits_no_newline _ (pad2_digits (day now))).
  pose proof (digits_no_newline _ (pad2_digits (hour now))).
  pose proof (digits_no_newline _ (pad2_digits (minute now))).
  pose proof (digits_no_newline _ (pad2_digits (second now))).
  assert (∀ s : string, bool_decide (10 ∉ utf8 s) = true → 10 ∉ utf8 s)
    as Hlit by (intros s; apply bool_decide_eq_true).
  pose proof (Hlit "-"%string eq_refl). pose proof (Hlit " "%string eq_refl).
  pose proof (Hlit ":"%string eq_refl).
  tauto.
Qed.

Lemma split_from_line sep cur l r :
  sep ∉ l →
  split_from sep cur (l ++ sep :: r) = (reverse cur ++ l) :: split_from sep [] r.
Proof.
  revert cur. induction l as [|c l IH]; intros cur Hl; simpl.
  - by rewrite decide_True, app_nil_r.
  - rewrite decide_False by (intros ->; apply Hl, list_elem_of_here).
    rewrite IH by (intros ?; by apply Hl, list_elem_of_further).
    by rewrite reverse_cons, <- app_assoc.
Qed.

Lemma text_lines_line l r :
  10 ∉ l → text_lines (l ++ nl ++ r) = l :: text_lines r.
Proof.
  intros Hl. unfold text_lines, split. change (nl ++ r) with (10 :: r).
  by rewrite split_from_line.
Qed.

(** Two texts that differ in their line [i] only. *)
Lemma same_except_line_cons i l a b :
  same_except_line i (Ok a) (Ok b) →
  10 ∉ l →
  same_except_line (S i) (Ok (l ++ nl ++ a)) (Ok (l ++ nl ++ b)).
Proof.
  intros [Hlen Hsame] Hl. unfold same_except_line.
  rewrite !text_lines_line by done. split; [simpl; by rewrite Hlen|].
  intros [|j] Hj; [done|]. simpl. apply Hsame. lia.
Qed.

Lemma same_except_line_here l1 l2 r :
  10 ∉ l1 → 10 ∉ l2 →
  same_except_line 0 (Ok (l1 ++ nl ++ r)) (Ok (l2 ++ nl ++ r)).
Proof.
  intros H1 H2. unfold same_except_line.
  rewrite !text_lines_line by done. split; [done|].
  by intros [|j] Hj.
Qed.

Section runs.
Context `{PyLib}.
Variable self : ProjectCollector.

Lemma report_head_timestamp now total_files python_files total_lines
    functions classes imports rest :
  report_head self now total_files python_files total_lines functions classes
    imports ++ rest
  = utf8 "# Отчет по проекту" ++ nl
    ++ (utf8 "Дата генерации: " ++ strftime now) ++ nl
    ++ report_stats self total_files python_files total_lines functions classes
         imports ++ rest.
Proof. unfold report_head, report_stats. by rewrite <- !app_assoc. Qed.

Lemma consolidated_head_timestamp now python_files rest :
  consolidated_head now python_files ++ rest
  = quotes ++ nl
    ++ utf8 "=== ОБЪЕДИНЕННЫЙ КОД ПРОЕКТА ===" ++ nl
    ++ (utf8 "Дата: " ++ strftime now) ++ nl
    ++ consolidated_count python_files ++ rest.
Proof. unfold consolidated_head, consolidated_count. by rewrite <- !app_assoc. Qed.

Lemma literal_no_newline (s : string) :
  bool_decide (10 ∉ utf8 s) = true → 10 ∉ utf8 s.
Proof. apply bool_decide_eq_true. Qed.

Lemma timestamp_line_no_newline (label : string) now :
  bool_decide (10 ∉ utf8 label) = true → 10 ∉ utf8 label ++ strftime now.
Proof.
  intros Hlabel%bool_decide_eq_true [?|?%strftime_no_newline]%elem_of_app; done.
Qed.

(** C9. Two runs on the same snapshot, at different times and with
    different iteration orders of the sets, end alike: both raise the same
    exception or both give a text, and the two reports are the same except
    for their line 1, the two consolidated texts except for their line 2;
    these lines hold the timestamp. *)
Theorem runs_differ_in_timestamp fs now1 now2 set_iter1 set_iter2 max_file_size :
  iteration_order set_iter1 → iteration_order set_iter2 →
  same_except_line 1 (generate_summary_report self fs now1 set_iter1)
    (generate_summary_report self fs now2 set_iter2)
  ∧ has_line 1 (utf8 "Дата генерации: " ++ strftime now1)
      (generate_summary_report self fs now1 set_iter1)
  ∧ same_except_line 2 (create_consolidated_code self fs now1 max_file_size)
      (create_consolidated_code self fs now2 max_file_size)
  ∧ has_line 2 (utf8 "Дата: " ++ strftime now1)
      (create_consolidated_code self fs now1 max_file_size).
Proof.
  intros Hiter1 Hiter2.
  unfold generate_summary_report, create_consolidated_code.
  destruct (collect_files self fs None) as [files_info|e]; simpl; [|done].
  assert (Hcons : ∀ now,
    foldl (consolidate_file fs max_file_size)
      (consolidated_head now (length (python_files files_info)))
      (python_files files_info)
    = quotes ++ nl
      ++ utf8 "=== ОБЪЕДИНЕННЫЙ КОД ПРОЕКТА ===" ++ nl
      ++ (utf8 "Дата: " ++ strftime now) ++ nl
      ++ consolidated_count (length (python_files files_info))
      ++ concat (consolidate_file fs max_file_size [] <$> python_files files_info)).
  { intros now.
    rewrite (foldl_entries _ (consolidate_file fs max_file_size []))
      by (intros; apply consolidate_file_app).
    apply consolidated_head_timestamp. }
  assert (Hquotes : 10 ∉ quotes)
    by (apply (bool_decide_eq_true_1 (10 ∉ quotes)); reflexivity).
  assert (Htitle : 10 ∉ utf8 "=== ОБЪЕДИНЕННЫЙ КОД ПРОЕКТА ===")
    by (by apply literal_no_newline).
  assert (Hconsolidated :
    same_except_line 2
      (Ok (foldl (consolidate_file fs max_file_size)
             (consolidated_head now1 (length (python_files files_info)))
             (python_files files_info)))
      (Ok (foldl (consolidate_file fs max_file_size)
             (consolidated_head now2 (length (python_files files_info)))
             (python_files files_info)))
    ∧ has_line 2 (utf8 "Дата: " ++ strftime now1)
        (Ok (foldl (consolidate_file fs max_file_size)
               (consolidated_head now1 (length (python_files files_info)))
               (python_files files_info)))).
  { rewrite !Hcons. split.
    - do 2 (apply same_except_line_cons; [|done]).
      apply same_except_line_here; by apply timestamp_line_no_newline.
    - unfold has_line. rewrite !text_lines_line; try done.
      by apply timestamp_line_no_newline. }
  destruct (generate_tree_structure self fs) as [tree|e]; simpl; [|done].
  rewrite !summary_report_sections by done. cbv zeta.
  rewrite !report_head_timestamp.
  assert (Hhead : 10 ∉ utf8 "# Отчет по проекту") by (by apply literal_no_newline).
  split; [|split; [|done]].
  - apply same_except_line_cons; [|done].
    apply same_except_line_here; by apply timestamp_line_no_newline.
  - unfold has_line. rewrite !text_lines_line; try done.
    by apply timestamp_line_no_newline.
Qed.
End runs.

(** *** Two runs on the sample project *)

Section runs_examples.
Import Sample.

(** Iterating in the opposite order is another iteration order. *)
Lemma iteration_order_reverse : iteration_order (λ s, reverse (elements s)).
Proof. intros s. apply reverse_Permutation. Qed.

Lemma runs_differ_in_timestamp_witness :
  iteration_order elements
  ∧ iteration_order (λ s, reverse (elements s))
  ∧ same_except_line 1
      (generate_summary_report collector project noon elements)
      (generate_summary_report collector project midnight
         (λ s, reverse (elements s)))
  ∧ has_line 1 (utf8 "Дата генерации: 2024-03-09 12:00:05")
      (generate_summary_report collector project noon elements)
  ∧ same_except_line 2
      (create_consolidated_code collector project noon default_max_file_size)
      (create_consolidated_code collector project midnight
         default_max_file_size)
  ∧ has_line 2 (utf8 "Дата: 2024-03-09 12:00:05")
      (create_consolidated_code collector project noon default_max_file_size).
Proof.
  split; [exact iteration_order_elements|].
  split; [exact iteration_order_reverse|].
  exact (runs_differ_in_timestamp collector project noon midnight elements
           (λ s, reverse (elements s)) default_max_file_size
           iteration_order_elements iteration_order_reverse).
Defined.

End runs_examples.

(** * Further properties *)

(** ** The aggregates of the report *)

Lemma size_union_le (X Y : gset str) : (size (X ∪ Y) ≤ size X + size Y)%nat.
Proof.
  rewrite size_union_alt.
  assert (Hsub : Y ∖ X ⊆ Y) by (apply subseteq_difference_l; done).
  apply subseteq_size in Hsub. lia.
Qed.

Lemma size_list_to_set_le (l : list str) :
  (size (list_to_set (C:=gset str) l) ≤ length l)%nat.
Proof.
  induction l as [|x l IH]; [by rewrite list_to_set_nil, size_empty|].
  rewrite list_to_set_cons. etrans; [apply size_union_le|].
  rewrite size_singleton. simpl. lia.
Qed.

Lemma foldl_tag {A} (path : str) (l : list A) all :
  foldl (λ all x, all ++ [tag x path]) all l = all ++ ((λ x, tag x path) <$> l).
Proof.
  revert all. induction l as [|x l IH]; intros all; simpl; [by rewrite app_nil_r|].
  by rewrite IH, <- app_assoc.
Qed.

Lemma aggregate_step acc f :
  all_functions (aggregate acc f) = all_functions acc ++ tagged_functions f
  ∧ all_classes (aggregate acc f) = all_classes acc ++ tagged_classes f
  ∧ all_imports (aggregate acc f) = all_imports acc ∪ list_to_set (imports_of f).
Proof.
  unfold aggregate, tagged_functions, tagged_classes, functions_of, classes_of,
    imports_of.
  destruct (FileRecord.analysis f) as [[a|e]|]; simpl.
  - by rewrite !foldl_tag.
  - by rewrite !app_nil_r, (right_id_L ∅ (∪)).
  - by rewrite !app_nil_r, (right_id_L ∅ (∪)).
Qed.

Lemma foldl_aggregate files acc :
  all_functions (foldl aggregate acc files)
  = all_functions acc ++ flat_map tagged_functions files
  ∧ all_classes (foldl aggregate acc files)
    = all_classes acc ++ flat_map tagged_classes files
  ∧ all_imports (foldl aggregate acc files)
    = all_imports acc ∪ ⋃ (list_to_set ∘ imports_of <$> files).
Proof.
  revert acc. induction files as [|f files IH]; intros acc; simpl.
  - by rewrite !app_nil_r, (right_id_L ∅ (∪)).
  - destruct (IH (aggregate acc f)) as (-> & -> & ->).
    destruct (aggregate_step acc f) as (-> & -> & ->).
    by rewrite <- !app_assoc, (assoc_L (∪)).
Qed.

(** The aggregates of the report are exact: the functions and the classes
    are those of the Python files, in the order of the files and tagged
    with the path of their file; the set of imports holds exactly the
    identifiers of these files; the counts of the head are the sums over
    the files, and the number of unique imports is at most the number of
    import identifiers. *)
Theorem aggregates_exact files_info :
  let acc := foldl aggregate (Build_Aggregate [] [] ∅) (python_files files_info) in
  all_functions acc = flat_map tagged_functions (python_files files_info)
  ∧ all_classes acc = flat_map tagged_classes (python_files files_info)
  ∧ (∀ imp, imp ∈ all_imports acc
       ↔ ∃ f, f ∈ python_files files_info ∧ imp ∈ imports_of f)
  ∧ length (all_functions acc)
    = sum_list_with (λ f, length (functions_of f)) (python_files files_info)
  ∧ length (all_classes acc)
    = sum_list_with (λ f, length (classes_of f)) (python_files files_info)
  ∧ (size (all_imports acc)
     ≤ sum_list_with (λ f, length (imports_of f)) (python_files files_info))%nat.
Proof.
  intros acc. destruct (foldl_aggregate (python_files files_info)
                          (Build_Aggregate [] [] ∅)) as (Hf & Hc & Hi).
  fold acc in Hf, Hc, Hi. simpl in Hf, Hc, Hi. rewrite (left_id_L ∅ (∪)) in Hi.
  assert (Hlen : ∀ {A B} (g : FileRecord.t → list A) (h : FileRecord.t → A → B) l,
    length (flat_map (λ f, h f <$> g f) l) = sum_list_with (λ f, length (g f)) l).
  { intros A B g h l. induction l as [|x l IH]; simpl; [done|].
    by rewrite length_app, length_fmap, IH. }
  split; [done|]. split; [done|]. split; [|split; [|split]].
  - intros imp. rewrite Hi, elem_of_union_list. split.
    + intros (X & (f & -> & Hin)%list_elem_of_fmap & Himp).
      exists f. split; [done|]. by apply elem_of_list_to_set in Himp.
    + intros (f & Hin & Himp). exists (list_to_set (imports_of f)).
      split; [|by apply elem_of_list_to_set].
      apply list_elem_of_fmap. by exists f.
  - rewrite Hf.
    apply (Hlen _ _ functions_of (λ f func, tag func (FileRecord.path f))).
  - rewrite Hc.
    apply (Hlen _ _ classes_of (λ f cls, tag cls (FileRecord.path f))).
  - rewrite Hi. clear. induction (python_files files_info) as [|f l IH].
    + by rewrite fmap_nil, union_list_nil, size_empty.
    + rewrite fmap_cons, union_list_cons. etrans; [apply size_union_le|]. simpl.
      pose proof (size_list_to_set_le (imports_of f)). lia.
Qed.

(** *** The order of the walk *)

(** The walk goes level by level: the nodes waiting, then the walk of all
    their children. *)
Lemma walk_queue_app todo rest :
  walk_queue (todo ++ rest)
  = todo ++ walk_queue (rest ++ flat_map iter_child_nodes todo).
Proof.
  revert rest. induction todo as [|n todo IH]; intros rest; simpl.
  - by rewrite app_nil_r.
  - simp walk_queue. f_equal. rewrite <- app_assoc, IH. by rewrite <- app_assoc.
Qed.

Lemma walk_queue_levels todo :
  walk_queue todo = todo ++ walk_queue (flat_map iter_child_nodes todo).
Proof. rewrite <- (app_nil_r todo) at 1. apply walk_queue_app. Qed.

Section order.
Context `{PyLib}.

(** The lists of an analysis go level by level, not in the order of the
    source: first what the statements of the module add, in their order,
    then what the nodes below them add. So a function defined at the end of
    a module comes before every method and every nested function. *)
Theorem analysis_level_order content body :
  let deeper := walk_queue (flat_map iter_child_nodes body) in
  let analysis := analyze_tree content (Module body) in
  walk (Module body) = Module body :: body ++ deeper
  ∧ Analysis.functions analysis
    = flat_map function_infos body ++ flat_map function_infos deeper
  ∧ Analysis.classes analysis
    = flat_map class_infos body ++ flat_map class_infos deeper
  ∧ Analysis.imports analysis
    = flat_map import_ids body ++ flat_map import_ids deeper.
Proof.
  intros deeper analysis.
  assert (Hwalk : walk (Module body) = Module body :: body ++ deeper).
  { unfold walk. simp walk_queue. simpl. by rewrite walk_queue_levels. }
  split; [done|]. unfold analysis, analyze_tree.
  rewrite foldl_visit_functions, foldl_visit_classes, foldl_visit_imports.
  rewrite Hwalk. simpl. by rewrite !flat_map_app.
Qed.

End order.

(** *** Sorting *)

(** [sorted] is the stable sort: the result is a rearrangement of the list,
    in the order of the keys, and elements with the same key keep their
    order. In the report the classes are all listed, once each, in this
    order. *)
Theorem classes_all_listed `{PyLib} (all_classes : list (Tagged ClassInfo.t)) report :
  all_classes ≠ [] →
  let key := λ x : Tagged ClassInfo.t, ClassInfo.name (item x) in
  let listed := sorted key all_classes in
  report_classes all_classes report
  = report ++ utf8 "## Основные классы" ++ nl
    ++ concat (class_entry <$> listed) ++ nl
  ∧ listed ≡ₚ all_classes
  ∧ length listed = length all_classes
  ∧ Sorted (key_le key) listed
  ∧ ∀ name, filter (λ x, key x = name) listed
            = filter (λ x, key x = name) all_classes.
Proof.
  intros Hne key listed. split; [|split; [|split; [|split]]].
  - rewrite report_classes_section. unfold classes_section.
    by rewrite section_nonempty.
  - apply sorted_Permutation.
  - apply length_sorted.
  - apply sorted_Sorted.
  - intros name. apply sorted_stable.
Qed.

(** *** Excluded file patterns *)

Lemma endswith_spec s suffix :
  endswith s suffix = true ↔ ∃ pre, s = pre ++ suffix.
Proof.
  unfold endswith. rewrite bool_decide_eq_true. split.
  - intros Hdrop. exists (take (length s - length suffix) s).
    rewrite <- (take_drop (length s - length suffix) s) at 1. by rewrite Hdrop.
  - intros [pre ->]. rewrite length_app.
    replace (length pre + length suffix - length suffix)%nat with (length pre) by lia.
    by rewrite drop_app_length.
Qed.

Section patterns.
Variable self : ProjectCollector.

(** A file is left out of the tree when its name ends with one of the
    patterns of [exclude_files] from which every [*] has been deleted: a
    pattern is a suffix, not a glob. Every file is left out exactly when
    some pattern is made of [*] only. *)
Theorem excluded_file_suffix :
  (∀ file,
     excluded_file self file = true
     ↔ ∃ pattern pre,
         pattern ∈ exclude_files self ∧ file = pre ++ remove_char 42 pattern)
  ∧ ((∀ file, excluded_file self file = true)
     ↔ ∃ pattern, pattern ∈ exclude_files self ∧ Forall (λ c, c = 42) pattern).
Proof.
  assert (Hspec : ∀ file,
    excluded_file self file = true
    ↔ ∃ pattern pre,
        pattern ∈ exclude_files self ∧ file = pre ++ remove_char 42 pattern).
  { intros f. unfold excluded_file. rewrite bool_decide_eq_true. unfold set_Exists.
    split.
    - intros (pattern & Hin & (pre & ->)%endswith_spec). by exists pattern, pre.
    - intros (pattern & pre & Hin & ->). exists pattern. split; [done|].
      apply endswith_spec. by exists pre. }
  split; [apply Hspec|]. split.
  - intros Hall. apply (Hspec []) in Hall as (pattern & pre & Hin & Heq).
    exists pattern. split; [done|].
    symmetry in Heq. apply app_eq_nil in Heq as [_ Heq].
    apply Forall_forall. intros c Hc. destruct (decide (c = 42)) as [|Hne]; [done|].
    assert (c ∈ remove_char 42 pattern) as Hin' by (by apply list_elem_of_filter).
    rewrite Heq in Hin'. by apply elem_of_nil in Hin'.
  - intros (pattern & Hin & Hstars) file. apply Hspec.
    exists pattern, file. split; [done|].
    unfold remove_char. rewrite filter_none; [by rewrite app_nil_r|].
    intros c Hc Hne. apply Hne. rewrite Forall_forall in Hstars. by apply Hstars.
Qed.

End patterns.

(** *** Records *)

Lemma for_each_Forall {A S} (P : S → Prop) (step : list S → A → result (list S))
    l acc acc' :
  (∀ acc x acc', step acc x = Ok acc' → ∃ new, acc' = acc ++ new ∧ Forall P new) →
  for_each step l acc = Ok acc' → Forall P acc → Forall P acc'.
Proof.
  intros Hstep. revert acc. induction l as [|x l IH]; intros acc; simpl.
  - by intros [= ->].
  - destruct (step acc x) as [acc1|e] eqn:Hx; simpl; [|done].
    intros Hrest Hacc. apply (IH acc1); [done|].
    destruct (Hstep _ _ _ Hx) as (new & -> & Hnew). by apply Forall_app.
Qed.

Section records.
Context `{PyLib}.
Variable self : ProjectCollector.

(** The records of an enumeration that succeeds. *)
Lemma collect_files_listed fs extensions files_info :
  collect_files self fs extensions = Ok files_info →
  Forall (λ r,
    (∃ root file,
       (root, file) ∈ walked (os_walk (keep_dir self) [] fs)
       ∧ FileRecord.path r = path_str (root ++ [file])
       ∧ stat_size fs (root ++ [file]) = Ok (FileRecord.size r)
       ∧ FileRecord.extension r = suffix file
       ∧ (FileRecord.extension r = py →
            FileRecord.analysis r
            = Some (analyze_python_file fs (root ++ [file]))))
    ∧ FileRecord.extension r ∈ list_or extensions default_extensions
    ∧ (FileRecord.analysis r = None ↔ FileRecord.extension r ≠ py)) files_info.
Proof.
  rewrite collect_files_walked.
  set (listed := walked (os_walk (keep_dir self) [] fs)).
  set (allowed := list_or extensions default_extensions).
  set (P := λ r : FileRecord.t,
    (∃ root file,
       (root, file) ∈ listed
       ∧ FileRecord.path r = path_str (root ++ [file])
       ∧ stat_size fs (root ++ [file]) = Ok (FileRecord.size r)
       ∧ FileRecord.extension r = suffix file
       ∧ (FileRecord.extension r = py →
            FileRecord.analysis r
            = Some (analyze_python_file fs (root ++ [file]))))
    ∧ FileRecord.extension r ∈ allowed
    ∧ (FileRecord.analysis r = None ↔ FileRecord.extension r ≠ py)).
  assert (Hgen : ∀ l acc acc',
    (∀ p, p ∈ l → p ∈ listed) →
    for_each (λ files_info '(root, file),
                collect_file fs allowed root files_info file) l acc = Ok acc' →
    Forall P acc → Forall P acc').
  { induction l as [|[root file] l IH]; intros acc acc' Hl; simpl.
    - by intros [= ->].
    - destruct (collect_file fs allowed root acc file) as [acc1|e] eqn:Hstep;
        simpl; [|done].
      intros Hrest Hacc. apply (IH acc1); [|done|].
      { intros p Hp. by apply Hl, list_elem_of_further. }
      unfold collect_file in Hstep. case_bool_decide as Hext.
      + destruct (stat_size fs (root ++ [file])) as [size|] eqn:Hsize;
          simpl in Hstep; [|done].
        injection Hstep as <-. apply Forall_app. split; [done|].
        constructor; [|constructor]. unfold P. simpl. split; [|split; [done|]].
        * exists root, file. split; [apply Hl, list_elem_of_here|].
          repeat split; try done. intros Hpy. by rewrite decide_True.
        * destruct (decide (suffix file = utf8 ".py")); naive_solver.
      + by injection Hstep as <-. }
  intros Hfiles. by apply (Hgen listed [] files_info).
Qed.

(** Whatever the snapshot, every record that the enumeration returns is
    the record of a file listed by the walk: its size is the size of the
    file, its extension is the suffix of the name and is in the allow-list,
    and it has an analysis, that of this file, exactly when the extension
    is [.py]. *)
Theorem records_of_listed_files fs extensions files_info :
  collect_files self fs extensions = Ok files_info →
  Forall (λ r,
    (∃ root file,
       (root, file) ∈ walked (os_walk (keep_dir self) [] fs)
       ∧ FileRecord.path r = path_str (root ++ [file])
       ∧ stat_size fs (root ++ [file]) = Ok (FileRecord.size r)
       ∧ FileRecord.extension r = suffix file
       ∧ (FileRecord.extension r = py →
            FileRecord.analysis r
            = Some (analyze_python_file fs (root ++ [file]))))
    ∧ FileRecord.extension r ∈ list_or extensions default_extensions
    ∧ (FileRecord.analysis r = None ↔ FileRecord.extension r ≠ py)) files_info.
Proof. apply collect_files_listed. Qed.

Lemma file_records_paths_NoDup fs extensions l :
  NoDup l →
  (∀ root file root' file',
     (root, file) ∈ l → (root', file') ∈ l →
     path_str (root ++ [file]) = path_str (root' ++ [file']) →
     (root, file) = (root', file')) →
  NoDup (FileRecord.path <$> file_records fs extensions l).
Proof.
  induction l as [|[root file] l IH]; intros Hnd Hinj; [constructor|].
  apply NoDup_cons in Hnd as [Hnotin Hnd].
  rewrite file_records_cons, fmap_app. apply NoDup_app. split; [|split].
  - unfold file_records. simpl. case_bool_decide; [|constructor].
    destruct (stat_size fs (root ++ [file])); simpl; [|constructor].
    apply NoDup_singleton.
  - intros path (r & -> & (root1 & file1 & ? & [= <- <-]%list_elem_of_singleton
                            & _ & _ & ->)%elem_of_file_records)%list_elem_of_fmap
      (r' & Hpath & (root2 & file2 & ? & Hin2 & _ & _ & ->)%elem_of_file_records)
        %list_elem_of_fmap.
    simpl in Hpath. apply Hinj in Hpath.
    + by injection Hpath as -> ->.
    + apply list_elem_of_here.
    + by apply list_elem_of_further.
  - apply IH; [done|]. intros ???? Hin Hin'.
    apply Hinj; by apply list_elem_of_further.
Qed.

(** On a snapshot as a file system gives it, no two records have the same
    path. *)
Theorem record_paths_distinct fs extensions files_info :
  wf_dir fs →
  collect_files self fs extensions = Ok files_info →
  NoDup (FileRecord.path <$> files_info).
Proof.
  intros Hwf. rewrite collect_files_records by done. intros [= <-].
  apply file_records_paths_NoDup; [by apply walked_NoDup|].
  intros root file root' file' (dirs & -> & Hfile & _)%walked_spec
    (dirs' & -> & Hfile' & _)%walked_spec Hpath. simpl in *.
  apply path_str_inj in Hpath.
  - by apply app_inj_tail in Hpath as [-> ->].
  - by eapply file_in_valid.
  - by eapply file_in_valid.
  - by destruct dirs.
  - by destruct dirs'.
Qed.

End records.

(** *** Paths written and read back *)

Lemma split_from_no_sep sep cur l :
  sep ∉ l → split_from sep cur l = [reverse cur ++ l].
Proof.
  revert cur. induction l as [|c l IH]; intros cur Hl; simpl.
  - by rewrite app_nil_r.
  - rewrite decide_False by (intros ->; apply Hl, list_elem_of_here).
    rewrite IH by (intros ?; by apply Hl, list_elem_of_further).
    by rewrite reverse_cons, <- app_assoc.
Qed.

Lemma split_path_str parts :
  parts ≠ [] → Forall (λ part, Fs.sep ∉ part) parts →
  split Fs.sep (path_str parts) = parts.
Proof.
  induction parts as [|a parts IH]; intros Hne Hparts; [done|].
  apply Forall_cons in Hparts as [Ha Hparts].
  destruct parts as [|b parts].
  - unfold path_str, split. simpl. by rewrite split_from_no_sep.
  - rewrite path_str_cons by done. unfold split.
    rewrite split_from_line by done. simpl. f_equal. by apply IH.
Qed.

(** Reading back the path written for a record gives the parts it was
    written from. *)
Lemma path_parts_path_str parts :
  parts ≠ [] → Forall kept_part parts → path_parts (path_str parts) = parts.
Proof.
  intros Hne Hparts. unfold path_parts. rewrite split_path_str; [|done|].
  - induction Hparts as [|part parts [[Hpart _] Hdot] _ IH]; [done|].
    rewrite filter_cons_True by done. f_equal. destruct parts; [done|by apply IH].
  - eapply Forall_impl; [done|]. by intros part [[_ ?] _].
Qed.

Section reread.
Context `{PyLib}.
Variable self : ProjectCollector.

(** On a snapshot as a file system gives it, in which no entry on the way
    to a file is called [.], the consolidator opens the file that was
    enumerated: the path of a record, read back, leads to a file, the size
    of the record is the size of this file, the text that the consolidator
    reads is its text, and the analysis of the record, if it has one, is
    the analysis of this same path. *)
Theorem consolidation_reads_enumerated_file fs extensions files_info r :
  wf_dir fs →
  (∀ dirs name, file_in fs dirs name → [46] ∉ dirs ++ [name]) →
  collect_files self fs extensions = Ok files_info →
  r ∈ files_info →
  ∃ dirs name text,
    file_in fs dirs name
    ∧ path_parts (FileRecord.path r) = dirs ++ [name]
    ∧ resolve fs (path_parts (FileRecord.path r))
      = Some (File name (FileRecord.size r) text)
    ∧ read_text fs (path_parts (FileRecord.path r)) = text
    ∧ (FileRecord.extension r = py →
         FileRecord.analysis r
         = Some (analyze_python_file fs (path_parts (FileRecord.path r)))).
Proof.
  intros Hwf Hdot Hfiles Hr.
  pose proof (collect_files_listed self fs extensions files_info Hfiles) as Hall.
  rewrite Forall_forall in Hall.
  destruct (Hall r Hr) as ((root & file & Hin & Hpath & Hsize & _ & Han) & _).
  apply walked_spec in Hin as (dirs & -> & Hfile & _). simpl in *.
  destruct (file_in_resolve _ _ _ Hwf Hfile) as (size & text & Hres).
  assert (Hparts : path_parts (FileRecord.path r) = dirs ++ [file]).
  { rewrite Hpath. apply path_parts_path_str; [by destruct dirs|].
    pose proof (file_in_valid _ _ _ Hwf Hfile) as Hvalid.
    apply Forall_forall. intros part Hpart. split.
    - rewrite Forall_forall in Hvalid. by apply Hvalid.
    - intros ->. by apply (Hdot dirs file). }
  exists dirs, file, text. rewrite Hparts. split; [done|]. split; [done|].
  unfold stat_size in Hsize. rewrite Hres in Hsize. simpl in Hsize.
  injection Hsize as <-. split; [done|]. split; [|done].
  unfold read_text. by rewrite Hres.
Qed.

End reread.

(** ** The tree builder *)

(** *** Dictionaries *)

Lemma dict_get_set {V} k (v : V) d : dict_get k (dict_set k v d) = Some v.
Proof.
  induction d as [|[k' v'] d IH]; simpl; [by rewrite decide_True|].
  destruct (decide (k' = k)) as [->|Hne]; simpl.
  - by rewrite decide_True.
  - by rewrite decide_False.
Qed.

Lemma dict_set_set {V} k (v v' : V) d :
  dict_set k v' (dict_set k v d) = dict_set k v' d.
Proof.
  induction d as [|[k' w] d IH]; simpl; [by rewrite decide_True|].
  destruct (decide (k' = k)) as [->|Hne]; simpl.
  - by rewrite decide_True.
  - by rewrite decide_False, IH.
Qed.

Lemma dict_set_same {V} k (v : V) d :
  dict_get k d = Some v → dict_set k v d = d.
Proof.
  induction d as [|[k' w] d IH]; simpl; [done|].
  destruct (decide (k' = k)) as [->|Hne]; intros Hget.
  - by injection Hget as ->.
  - f_equal. by apply IH.
Qed.

Lemma dict_get_None {V} k (d : list (str * V)) :
  dict_get k d = None ↔ k ∉ d.*1.
Proof.
  induction d as [|[k' w] d IH]; simpl.
  { split; [intros _; apply not_elem_of_nil|done]. }
  rewrite not_elem_of_cons. destruct (decide (k' = k)) as [->|Hne]; [naive_solver|].
  rewrite IH. naive_solver.
Qed.

Lemma dict_set_fresh {V} k (v : V) d :
  k ∉ d.*1 → dict_set k v d = d ++ [(k, v)].
Proof.
  induction d as [|[k' w] d IH]; simpl; [done|].
  intros [Hne Hnotin]%not_elem_of_cons.
  rewrite decide_False by done. by rewrite IH.
Qed.

Lemma foldl_dict_set_fresh (names : list str) (level : list (str * tnode)) :
  NoDup names → (∀ name, name ∈ names → name ∉ level.*1) →
  foldl (λ level file, dict_set file file_marker level) level names
  = level ++ ((λ name, (name, file_marker)) <$> names).
Proof.
  revert level. induction names as [|name names IH]; intros level Hnd Hfresh; simpl.
  - by rewrite app_nil_r.
  - apply NoDup_cons in Hnd as [Hnotin Hnd].
    rewrite dict_set_fresh by (apply Hfresh, list_elem_of_here).
    rewrite IH; [by rewrite <- app_assoc|done|].
    intros name' Hin. rewrite fmap_app, elem_of_app. simpl.
    intros [Hold|Hnew%list_elem_of_singleton].
    + by apply (Hfresh name'); [apply list_elem_of_further|].
    + by subst.
Qed.

(** *** The walk seen from a parent directory *)

Lemma walk_entry_below keep d e : ∀ top,
  walk_entry keep (d :: top) e = below d <$> walk_entry keep top e.
Proof.
  induction e as [|d' st_size sub IH] using entry_ind'; intros top; [done|].
  simpl. destruct (keep d'); [|done]. simpl. f_equal.
  induction IH as [|e sub He _ IHsub]; simpl; [done|].
  rewrite fmap_app. f_equal; [|done]. apply (He (top ++ [d'])).
Qed.

Lemma os_walk_below keep d top es :
  os_walk keep (d :: top) es = below d <$> os_walk keep top es.
Proof.
  unfold os_walk. simpl. f_equal.
  induction es as [|e es IH]; simpl; [done|].
  by rewrite fmap_app, walk_entry_below, IH.
Qed.

Section tree.
Variable self : ProjectCollector.

Lemma tree_step_below d it level sub :
  dict_get d level = Some (subtree sub) →
  tree_step self level (below d it)
  = sub' ← tree_step self sub it; Ok (dict_set d (subtree sub') level).
Proof. destruct it as [[root dirs] files]. simpl. by intros ->. Qed.

Lemma tree_step_below_new d it level :
  dict_get d level = None →
  tree_step self level (below d it)
  = sub' ← tree_step self [] it; Ok (dict_set d (subtree sub') level).
Proof. destruct it as [[root dirs] files]. simpl. by intros ->. Qed.

(** The items below a directory that is in the dictionary change this
    directory only. *)
Lemma for_each_below d items : ∀ level sub,
  dict_get d level = Some (subtree sub) →
  for_each (tree_step self) (below d <$> items) level
  = sub' ← for_each (tree_step self) items sub; Ok (dict_set d (subtree sub') level).
Proof.
  induction items as [|it items IH]; intros level sub Hget.
  - simpl. by rewrite dict_set_same.
  - rewrite fmap_cons. cbn [for_each]. rewrite (tree_step_below _ _ _ _ Hget).
    destruct (tree_step self sub it) as [sub1|e]; [|done]. cbn [mbind result_bind].
    rewrite (IH _ sub1) by apply dict_get_set.
    destruct (for_each (tree_step self) items sub1) as [sub2|e]; [|done].
    cbn [mbind result_bind]. by rewrite dict_set_set.
Qed.

(** The first of them creates the directory. *)
Lemma for_each_below_new d items level :
  items ≠ [] → dict_get d level = None →
  for_each (tree_step self) (below d <$> items) level
  = sub' ← for_each (tree_step self) items []; Ok (dict_set d (subtree sub') level).
Proof.
  destruct items as [|it items]; intros Hne Hget; [done|].
  rewrite fmap_cons. cbn [for_each]. rewrite (tree_step_below_new _ _ _ Hget).
  destruct (tree_step self [] it) as [sub1|e]; [|done]. cbn [mbind result_bind].
  rewrite (for_each_below _ _ _ sub1) by apply dict_get_set.
  destruct (for_each (tree_step self) items sub1) as [sub2|e]; [|done].
  cbn [mbind result_bind]. by rewrite dict_set_set.
Qed.
Lemma generate_tree_structure_steps fs :
  generate_tree_structure self fs
  = for_each (tree_step self) (os_walk (keep_dir self) [] fs) [].
Proof. reflexivity. Qed.

Lemma filenames_dirnames_disjoint es name :
  NoDup (entry_name <$> es) → name ∈ filenames es → name ∉ dirnames es.
Proof.
  unfold filenames, dirnames. induction es as [|e es IH]; simpl.
  { by intros _ ?%elem_of_nil. }
  intros [Hnotin Hnd]%NoDup_cons. rewrite !filter_cons.
  assert (Hsub : ∀ (P : entry → Prop) `{!∀ x, Decision (P x)} n,
            n ∈ entry_name <$> filter P es → n ∈ entry_name <$> es).
  { intros P ? n (e' & -> & [_ ?]%list_elem_of_filter)%list_elem_of_fmap.
    by apply list_elem_of_fmap_2. }
  destruct e as [n sz t|d sz sub]; simpl.
  - rewrite elem_of_cons. intros [->|Hin]; [|by apply IH].
    intros Hd. by apply Hnotin, (Hsub _ _ _ Hd).
  - rewrite not_elem_of_cons. intros Hin. split; [|by apply IH].
    intros ->. by apply Hnotin, (Hsub _ _ _ Hin).
Qed.

Lemma tree_files_keys hide es :
  (tree_files hide es).*1 = filter (λ name, hide name = false) (filenames es).
Proof.
  unfold tree_files.
  induction (filter _ (filenames es)) as [|n l IH]; simpl; [done|by f_equal].
Qed.

Lemma tree_of_entry_keys keep hide e name :
  name ∈ (tree_of_entry keep hide e).*1 → name = entry_name e ∧ is_dir e = true.
Proof.
  destruct e as [|d sz sub]; simpl; [by intros ?%elem_of_nil|].
  destruct (keep d); simpl; [|by intros ?%elem_of_nil].
  by intros ->%list_elem_of_singleton.
Qed.

Lemma dirnames_NoDup es : NoDup (entry_name <$> es) → NoDup (dirnames es).
Proof.
  unfold dirnames. induction es as [|e es IH]; simpl; [constructor|].
  intros [Hnotin Hnd]%NoDup_cons. rewrite filter_cons.
  destruct (decide (is_dir e = true)); [|by apply IH]. simpl.
  apply NoDup_cons. split; [|by apply IH].
  intros (e' & Heq & [_ Hin]%list_elem_of_filter)%list_elem_of_fmap.
  apply Hnotin. rewrite Heq. by apply list_elem_of_fmap_2.
Qed.

Lemma walk_entry_Dir_below keep d st_size sub :
  walk_entry keep [] (Dir d st_size sub)
  = if keep d then below d <$> os_walk keep [] sub else [].
Proof. rewrite walk_entry_Dir. by rewrite <- os_walk_below. Qed.

(** The loop over the walks of the subdirectories. *)
Lemma for_each_tree_step_dirs es : ∀ level,
  NoDup (dirnames es) → (∀ d, d ∈ dirnames es → d ∉ level.*1) →
  Forall wf_entry es → Forall (tree_built self) es →
  for_each (tree_step self) (flat_map (walk_entry (keep_dir self) []) es) level
  = Ok (level ++ flat_map (tree_of_entry (keep_dir self) (excluded_file self)) es).
Proof.
  induction es as [|e es IH]; intros level Hnd Hfresh Hwf Hbuilt.
  { simpl. by rewrite app_nil_r. }
  apply Forall_cons in Hwf as [Hwfe Hwf].
  apply Forall_cons in Hbuilt as [Hbe Hbuilt].
  cbn [flat_map]. rewrite for_each_app.
  destruct e as [name st_size text|d st_size sub].
  - simpl. apply IH; try done.
  - unfold dirnames in Hnd, Hfresh. rewrite filter_cons_True in Hnd, Hfresh by done.
    simpl in Hnd, Hfresh. fold (dirnames es) in Hnd, Hfresh.
    apply NoDup_cons in Hnd as [Hd Hnd].
    apply wf_entry_Dir in Hwfe as [_ Hsub].
    rewrite walk_entry_Dir_below. cbn [tree_of_entry].
    destruct (keep_dir self d) eqn:Hkeep.
    + rewrite for_each_below_new; [|done|].
      2: { apply dict_get_None, Hfresh, list_elem_of_here. }
      rewrite (Hbe d st_size sub) by done. cbn [mbind result_bind].
      rewrite dict_set_fresh by apply Hfresh, list_elem_of_here.
      rewrite IH; try done.
      * by rewrite <- app_assoc.
      * intros d' Hd'. rewrite fmap_app, elem_of_app. simpl.
        intros [Hold|Hnew].
        -- by apply (Hfresh d'); [apply list_elem_of_further|].
        -- apply list_elem_of_singleton in Hnew. by subst.
    + cbn [for_each mbind result_bind app]. apply IH; try done.
      intros d' Hd'. by apply Hfresh, list_elem_of_further.
Qed.

(** The loop over the walk of a directory, from the empty dictionary. *)
Lemma for_each_tree_step es :
  wf_dir es → Forall (tree_built self) es →
  for_each (tree_step self) (os_walk (keep_dir self) [] es) []
  = Ok (tree_of (keep_dir self) (excluded_file self) es).
Proof.
  intros [Hnd Hwf] IH. unfold os_walk at 1. cbn [for_each tree_step add_level].
  rewrite foldl_dict_set_fresh.
  2: { apply NoDup_filter. by apply filenames_NoDup. }
  2: { intros ? _. apply not_elem_of_nil. }
  cbn [mbind result_bind app]. fold (tree_files (excluded_file self) es).
  unfold tree_of. apply for_each_tree_step_dirs; try done.
  - by apply dirnames_NoDup.
  - intros d Hd. rewrite tree_files_keys.
    intros [_ Hin]%list_elem_of_filter.
    by apply (filenames_dirnames_disjoint es d).
Qed.

Lemma tree_built_all e : tree_built self e.
Proof.
  induction e as [|d st_size sub IH] using entry_ind'; [by intros ???|].
  intros d' st_size' sub' [= <- <- <-] Hwf. by apply for_each_tree_step.
Qed.

Lemma generate_tree_structure_wf fs :
  wf_dir fs →
  generate_tree_structure self fs
  = Ok (tree_of (keep_dir self) (excluded_file self) fs).
Proof.
  intros Hwf. rewrite generate_tree_structure_steps.
  apply for_each_tree_step; [done|].
  apply Forall_forall. intros e _. apply tree_built_all.
Qed.

(** On a snapshot as a file system gives it, building the tree succeeds,
    and the dictionary has, for every directory that is reached, first the
    files whose names are not hidden by [exclude_files], then the
    subdirectories that are not in [exclude_dirs], each in the order of the
    listing; an empty directory has the empty dictionary. *)
Theorem tree_of_snapshot fs :
  wf_dir fs →
  generate_tree_structure self fs
  = Ok (tree_of (keep_dir self) (excluded_file self) fs).
Proof. apply generate_tree_structure_wf. Qed.

End tree.

(** ** The files of the tree *)

Lemma dict_get_elem_of {V} k (v : V) d :
  NoDup d.*1 → dict_get k d = Some v ↔ (k, v) ∈ d.
Proof.
  induction d as [|[k' v'] d IH]; simpl.
  { intros _. split; [done|by intros ?%elem_of_nil]. }
  intros [Hnotin Hnd]%NoDup_cons. rewrite elem_of_cons.
  destruct (decide (k' = k)) as [->|Hne].
  - split; [intros [= ->]; by left|].
    intros [[= ->]|Hin]; [done|]. destruct Hnotin.
    by apply (list_elem_of_fmap_2 fst) in Hin.
  - rewrite IH by done. split; [by right|]. by intros [[= ? ?]|?].
Qed.

Lemma elem_of_tree_files hide es k v :
  (k, v) ∈ tree_files hide es
  ↔ v = file_marker ∧ hide k = false ∧ ∃ st_size text, File k st_size text ∈ es.
Proof.
  unfold tree_files. rewrite list_elem_of_fmap. split.
  - intros (name & [= -> ->] & [Hhide Hin]%list_elem_of_filter).
    by apply elem_of_filenames in Hin.
  - intros (-> & Hhide & Hin%elem_of_filenames). exists k. split; [done|].
    by apply list_elem_of_filter.
Qed.

Lemma elem_of_tree_dirs keep hide es k v :
  (k, v) ∈ flat_map (tree_of_entry keep hide) es
  ↔ ∃ st_size sub, Dir k st_size sub ∈ es ∧ keep k = true
                   ∧ v = subtree (tree_of keep hide sub).
Proof.
  rewrite elem_of_flat_map. split.
  - intros ([|d st_size sub] & Hin & Hkv); simpl in Hkv; [by apply elem_of_nil in Hkv|].
    destruct (keep d) eqn:Hkeep; [|by apply elem_of_nil in Hkv].
    apply list_elem_of_singleton in Hkv as [= -> ->]. by exists st_size, sub.
  - intros (st_size & sub & Hin & Hkeep & ->). exists (Dir k st_size sub).
    split; [done|]. simpl. rewrite Hkeep. by apply list_elem_of_singleton.
Qed.

Lemma tree_dirs_NoDup keep hide es :
  NoDup (entry_name <$> es) → NoDup (flat_map (tree_of_entry keep hide) es).*1.
Proof.
  induction es as [|e es IH]; simpl; [constructor|].
  intros [Hnotin Hnd]%NoDup_cons. rewrite fmap_app. apply NoDup_app.
  split; [|split; [|by apply IH]].
  - destruct e as [|d st_size sub]; simpl; [constructor|].
    destruct (keep d); simpl; [apply NoDup_singleton|constructor].
  - intros k [-> _]%tree_of_entry_keys Hin. apply Hnotin.
    apply list_elem_of_fmap in Hin as ([k' v] & -> & Hin).
    apply elem_of_tree_dirs in Hin as (st_size & sub & Hin & _).
    by apply (list_elem_of_fmap_2 entry_name) in Hin.
Qed.

Lemma tree_of_NoDup keep hide es :
  NoDup (entry_name <$> es) → NoDup (tree_of keep hide es).*1.
Proof.
  intros Hnd. unfold tree_of. rewrite fmap_app. apply NoDup_app.
  split; [|split; [|by apply tree_dirs_NoDup]].
  - rewrite tree_files_keys. by apply NoDup_filter, filenames_NoDup.
  - rewrite tree_files_keys. intros k [_ Hfile]%list_elem_of_filter Hin.
    apply list_elem_of_fmap in Hin as ([k' v] & -> & Hin).
    apply elem_of_tree_dirs in Hin as (st_size & sub & Hin & _).
    apply (filenames_dirnames_disjoint _ _ Hnd Hfile).
    unfold dirnames. apply list_elem_of_fmap. exists (Dir k' st_size sub).
    split; [done|]. by apply list_elem_of_filter.
Qed.

Lemma dict_get_tree_of keep hide es k v :
  NoDup (entry_name <$> es) →
  dict_get k (tree_of keep hide es) = Some v
  ↔ (v = file_marker ∧ hide k = false ∧ ∃ st_size text, File k st_size text ∈ es)
    ∨ (∃ st_size sub, Dir k st_size sub ∈ es ∧ keep k = true
                      ∧ v = subtree (tree_of keep hide sub)).
Proof.
  intros Hnd. rewrite dict_get_elem_of by by apply tree_of_NoDup.
  unfold tree_of at 1. by rewrite elem_of_app, elem_of_tree_files, elem_of_tree_dirs.
Qed.

Lemma entry_name_unique es e e' :
  NoDup (entry_name <$> es) → e ∈ es → e' ∈ es →
  entry_name e = entry_name e' → e = e'.
Proof.
  intros Hnd Hin Hin' Heq.
  pose proof (find_entry_elem_of _ _ Hnd Hin) as Hfind.
  pose proof (find_entry_elem_of _ _ Hnd Hin') as Hfind'.
  rewrite Heq in Hfind. congruence.
Qed.

Lemma tree_lookup_file keep hide es dirs name :
  wf_dir es →
  tree_lookup (dirs ++ [name]) (subtree (tree_of keep hide es)) = Some file_marker
  ↔ file_in es dirs name ∧ Forall (λ d, keep d = true) dirs ∧ hide name = false.
Proof.
  revert es. induction dirs as [|d dirs IH]; intros es Hwf.
  - simpl. destruct (dict_get name _) as [v|] eqn:Hget; simpl.
    + apply dict_get_tree_of in Hget; [|apply Hwf]. split.
      * intros [= ->]. destruct Hget as [(_ & Hhide & st_size & text & Hin)
                                        |(? & ? & _ & _ & ?)]; [|done].
        split; [by econstructor|]. by split.
      * intros (Hfile & _ & Hhide). inversion Hfile as [? ? st_size text Hin|]; subst.
        destruct Hget as [(-> & _)|(st_size' & sub & Hin' & _)]; [done|].
        destruct Hwf as [Hnd _].
        assert (File name st_size text = Dir name st_size' sub); [|done].
        by apply (entry_name_unique es).
    + split; [done|]. intros (Hfile & _ & Hhide).
      inversion Hfile as [? ? st_size text Hin|]; subst.
      assert (dict_get name (tree_of keep hide es) = Some file_marker) as Hsome;
        [|by rewrite Hsome in Hget].
      apply dict_get_tree_of; [apply Hwf|]. left. split; [done|]. split; [done|].
      by exists st_size, text.
  - cbn [app tree_lookup]. destruct (dict_get d _) as [v|] eqn:Hget; simpl.
    + apply dict_get_tree_of in Hget; [|apply Hwf].
      destruct Hget as [(-> & _ & st_size & text & Hin)
                       |(st_size & sub & Hin & Hkeep & ->)].
      * destruct dirs; simpl; (split; [done|]).
        all: intros (Hfile & _); inversion Hfile as [|? ? st_size' sub' ? ? Hin' _]; subst.
        all: destruct Hwf as [Hnd _].
        all: assert (File d st_size text = Dir d st_size' sub'); [|done].
        all: by apply (entry_name_unique es).
      * destruct (wf_dir_elem_of _ _ _ _ Hwf Hin) as [_ Hsub].
        rewrite (IH sub Hsub). split.
        -- intros (Hfile & Hall & Hhide). split; [by econstructor|].
           split; [by constructor|done].
        -- intros (Hfile & Hall & Hhide).
           inversion Hfile as [|? ? st_size' sub' ? ? Hin' Hfile']; subst.
           destruct Hwf as [Hnd _].
           assert (Dir d st_size sub = Dir d st_size' sub') as [= -> ->].
           { by apply (entry_name_unique es). }
           apply Forall_cons in Hall as [_ Hall]. done.
    + split; [done|]. intros (Hfile & Hall & _).
      inversion Hfile as [|? ? st_size sub ? ? Hin _]; subst.
      apply Forall_cons in Hall as [Hkeep _].
      assert (dict_get d (tree_of keep hide es)
              = Some (subtree (tree_of keep hide sub))) as Hsome;
        [|by rewrite Hsome in Hget].
      apply dict_get_tree_of; [apply Hwf|]. right. by exists st_size, sub.
Qed.

Section tree_files.
Context `{PyLib}.
Variable self : ProjectCollector.

(** On a snapshot as a file system gives it, the dictionary has a file
    under a chain of keys exactly when the snapshot has this file there, no
    directory on the way to it is excluded, and its name ends with no
    pattern of [exclude_files]. *)
Theorem tree_files_exact fs tree dirs name :
  wf_dir fs →
  generate_tree_structure self fs = Ok tree →
  tree_lookup (dirs ++ [name]) (subtree tree) = Some file_marker
  ↔ file_in fs dirs name
    ∧ Forall (λ d, keep_dir self d = true) dirs
    ∧ excluded_file self name = false.
Proof.
  intros Hwf. rewrite generate_tree_structure_wf by done. intros [= <-].
  by apply tree_lookup_file.
Qed.

(** ** Failed analyses *)





End tree_files.

(** ** The printed tree *)

Lemma tnode_ind' (P : tnode → Prop) :
  P file_marker →
  (∀ items, Forall (λ p, P p.2) items → P (subtree items)) →
  ∀ t, P t.
Proof.
  intros Hfile Hsub. fix IH 1. intros [|items]; [done|].
  apply Hsub. induction items as [|[name t] items IHitems]; constructor; [|done].
  apply IH.
Qed.

Lemma names_clean_subtree items :
  names_clean (subtree items)
  ↔ Forall (λ p, (10 ∉ p.1) ∧ names_clean p.2) items.
Proof.
  simpl. induction items as [|p items IH]; simpl.
  - split; [constructor|done].
  - rewrite Forall_cons, IH. naive_solver.
Qed.

Lemma newlines_app s t : newlines (s ++ t) = (newlines s + newlines t)%nat.
Proof. unfold newlines. by rewrite filter_app, length_app. Qed.

Lemma newlines_none s : 10 ∉ s → newlines s = 0%nat.
Proof.
  intros Hs. unfold newlines. rewrite filter_none; [done|].
  intros c Hc ->. done.
Qed.

Lemma connector_no_newline is_last_item : 10 ∉ connector is_last_item.
Proof. destruct is_last_item; apply (bool_decide_eq_true_1 _); reflexivity. Qed.

Lemma for_items_last_newlines {A} (body : bool → A → str) (count : A → nat) items :
  Forall (λ x, ∀ is_last_item, newlines (body is_last_item x) = count x) items →
  newlines (for_items_last body items) = sum_list_with count items.
Proof.
  induction 1 as [|x items Hx _ IH]; simpl; [done|].
  by rewrite newlines_app, Hx, IH.
Qed.

Lemma newlines_line prefix is_last_item name rest :
  10 ∉ prefix → 10 ∉ name →
  newlines (prefix ++ connector is_last_item ++ name ++ rest) = newlines rest.
Proof.
  intros Hprefix Hname. rewrite !newlines_app.
  rewrite (newlines_none prefix), (newlines_none name) by done.
  by rewrite (newlines_none (connector _)) by apply connector_no_newline.
Qed.

Lemma print_item_newlines t : ∀ prefix is_last_item name,
  names_clean t → 10 ∉ prefix → 10 ∉ name →
  newlines (print_item prefix is_last_item name t) = tree_size t.
Proof.
  induction t as [|items IH] using tnode_ind';
    intros prefix is_last_item name Hclean Hprefix Hname.
  - cbn [print_item tree_size].
    by rewrite newlines_line.
  - apply names_clean_subtree in Hclean.
    cbn [print_item tree_size].
    rewrite newlines_line by done.
    rewrite newlines_app, (newlines_none (utf8 "/"))
      by (apply (bool_decide_eq_true_1 _); reflexivity).
    change (newlines (nl ++ ?s)) with (S (newlines s)).
    cbn [Nat.add]. f_equal.
    apply (for_items_last_newlines _ (λ p, tree_size p.2)).
    rewrite Forall_forall in IH, Hclean. apply Forall_forall.
    intros [name' t'] Hin last. destruct (Hclean _ Hin) as [Hname' Hclean'].
    apply (IH _ Hin); [done| |done].
    rewrite elem_of_app. intros [?|Hext]; [done|].
    destruct is_last_item;
      by apply (bool_decide_eq_true_1 (10 ∉ _)) in Hext.
Qed.

(** The printed tree has one line for every item of the dictionary, files
    and directories alike, when no name and not the prefix has a newline. *)
Theorem print_tree_lines tree prefix :
  10 ∉ prefix → names_clean (subtree tree) →
  newlines (print_tree tree prefix) = sum_list_with (λ p, tree_size p.2) tree.
Proof.
  intros Hprefix Hclean%names_clean_subtree. unfold print_tree.
  apply (for_items_last_newlines _ (λ p, tree_size p.2)).
  rewrite Forall_forall in Hclean. apply Forall_forall.
  intros [name t] Hin last. destruct (Hclean _ Hin) as [Hname Hclean'].
  by apply print_item_newlines.
Qed.

(** ** The further properties on the sample project *)

Section further_examples.
Import Sample.

Ltac by_computation := apply (bool_decide_unpack _); vm_compute; exact I.

Lemma project_no_dot dirs name :
  file_in project dirs name → [46] ∉ dirs ++ [name].
Proof.
  intros Hfile.
  assert (Hin : (dirs, name) ∈ walked (os_walk (λ _, true) [] project)).
  { apply walked_spec. exists dirs. split; [done|]. split; [done|].
    by apply Forall_true. }
  assert (Hall : Forall (λ p : list str * str, [46] ∉ p.1 ++ [p.2])
                   (walked (os_walk (λ _, true) [] project)))
    by by_computation.
  rewrite Forall_forall in Hall. apply (Hall _ Hin).
Qed.

Lemma classes_all_listed_witness :
  two_classes ≠ []
  ∧ length (sorted (λ x, ClassInfo.name (item x)) two_classes) = 2%nat.
Proof.
  assert (Hne : two_classes ≠ []) by done.
  split; [exact Hne|].
  pose proof (classes_all_listed two_classes [] Hne) as Hlisted.
  cbv zeta in Hlisted. destruct Hlisted as (_ & _ & Hlen & _). exact Hlen.
Defined.

Lemma records_of_listed_files_witness :
  ∃ files_info,
    collect_files collector project (Some [utf8 ".rst"; utf8 ".md"])
    = Ok files_info
    ∧ FileRecord.path <$> files_info = [utf8 "README.md"; utf8 "notes.rst"]
    ∧ Forall (λ r, FileRecord.extension r ∈ [utf8 ".rst"; utf8 ".md"]
                   ∧ FileRecord.analysis r = None) files_info.
Proof.
  pose proof (collect_files_records collector project
                (Some [utf8 ".rst"; utf8 ".md"]) project_wf) as Hfiles.
  eexists. split; [exact Hfiles|]. split; [vm_compute; reflexivity|].
  pose proof (records_of_listed_files collector project _ _ Hfiles) as Hall.
  eapply Forall_impl; [exact Hall|]. intros r (_ & Hext & Hnone).
  split; [exact Hext|]. apply Hnone. intros Hpy.
  rewrite Hpy in Hext. revert Hext. by_computation.
Defined.

Lemma record_paths_distinct_witness :
  wf_dir project
  ∧ ∃ files_info,
      collect_files collector project None = Ok files_info
      ∧ NoDup (FileRecord.path <$> files_info).
Proof.
  split; [exact project_wf|].
  pose proof (collect_files_records collector project None project_wf) as Hfiles.
  eexists. split; [exact Hfiles|].
  exact (record_paths_distinct collector project None _ project_wf Hfiles).
Defined.

Lemma consolidation_reads_enumerated_file_witness :
  wf_dir project
  ∧ ∃ files_info,
      collect_files collector project None = Ok files_info
      ∧ ∀ r, r ∈ files_info →
          ∃ dirs name text,
            file_in project dirs name
            ∧ path_parts (FileRecord.path r) = dirs ++ [name]
            ∧ read_text project (path_parts (FileRecord.path r)) = text.
Proof.
  split; [exact project_wf|].
  pose proof (collect_files_records collector project None project_wf) as Hfiles.
  eexists. split; [exact Hfiles|]. intros r Hr.
  destruct (consolidation_reads_enumerated_file collector project None _ r
              project_wf project_no_dot Hfiles Hr)
    as (dirs & name & text & Hfile & Hparts & _ & Hread & _).
  by exists dirs, name, text.
Defined.

Lemma tree_of_snapshot_witness :
  wf_dir project
  ∧ generate_tree_structure collector project = Ok project_tree.
Proof.
  split; [exact project_wf|].
  exact (tree_of_snapshot collector project project_wf).
Defined.

Lemma tree_files_exact_witness :
  wf_dir project
  ∧ generate_tree_structure collector project = Ok project_tree
  ∧ (tree_lookup ([utf8 "pkg"] ++ [utf8 "shapes.py"]) (subtree project_tree)
     = Some file_marker
     ↔ file_in project [utf8 "pkg"] (utf8 "shapes.py")
       ∧ Forall (λ d, keep_dir collector d = true) [utf8 "pkg"]
       ∧ excluded_file collector (utf8 "shapes.py") = false).
Proof.
  assert (Htree : generate_tree_structure collector project = Ok project_tree)
    by (vm_compute; reflexivity).
  split; [exact project_wf|]. split; [exact Htree|].
  exact (tree_files_exact collector project project_tree [utf8 "pkg"]
           (utf8 "shapes.py") project_wf Htree).
Defined.

Lemma print_tree_lines_witness :
  (10 ∉ ([] : str))
  ∧ names_clean (subtree project_tree)
  ∧ newlines (print_tree project_tree []) = 11%nat.
Proof.
  assert (Hprefix : 10 ∉ ([] : str)) by apply not_elem_of_nil.
  assert (Hclean : names_clean (subtree project_tree)).
  { unfold project_tree. cbn [names_clean foldr fst snd].
    repeat split; by_computation. }
  split; [exact Hprefix|]. split; [exact Hclean|].
  exact (print_tree_lines project_tree [] Hprefix Hclean).
Defined.

End further_examples.
